(** * vscode-journal: the input parser ([src/actions/parser.ts])

    A shallow embedding of [Parser.parseInput] and of the four offset
    resolution algorithms, together with the parts of the JavaScript
    run-time they rely on: strings as sequences of UTF-16 code units,
    [undefined]/[null], [parseInt], [String.prototype.split],
    [Date.UTC], regular expressions with capture groups, and the
    settle-once behaviour of a promise executor. *)

From Stdlib Require Import ZArith NArith List String Ascii Bool Lia.
Import ListNotations.

Local Open Scope Z_scope.

(** ** JavaScript values *)

Module JS.

(** A JavaScript string is a sequence of UTF-16 code units. *)
Definition jsstring := list N.

(** [str] reads an ASCII literal as a JavaScript string. *)
Definition str (s : string) : jsstring :=
  List.map N_of_ascii (list_ascii_of_string s).

Definition chr (a : ascii) : N := N_of_ascii a.

Fixpoint jsstring_eqb (a b : jsstring) : bool :=
  match a, b with
  | [], [] => true
  | x :: a', y :: b' => N.eqb x y && jsstring_eqb a' b'
  | _, _ => false
  end.

(** Numbers.  The parser only ever produces integers and [NaN]; an integer
    is kept exact, which agrees with the IEEE double of the source for
    magnitudes up to [2^53].  [-0] is identified with [0]. *)
Inductive number : Type :=
| NaN
| Num (z : Z).

Definition safe_integer (z : Z) : Prop := Z.abs z <= 2 ^ 53.

Definition num_sub (a b : number) : number :=
  match a, b with Num x, Num y => Num (x - y) | _, _ => NaN end.

Definition num_add (a b : number) : number :=
  match a, b with Num x, Num y => Num (x + y) | _, _ => NaN end.

Definition num_mul (a b : number) : number :=
  match a, b with Num x, Num y => Num (x * y) | _, _ => NaN end.

(** [a < b] and [a > b]; every comparison with [NaN] is false. *)
Definition num_lt (a b : number) : bool :=
  match a, b with Num x, Num y => x <? y | _, _ => false end.

Definition num_gt (a b : number) : bool := num_lt b a.

Definition num_le (a b : number) : bool :=
  match a, b with Num x, Num y => x <=? y | _, _ => false end.

Definition num_ge (a b : number) : bool := num_le b a.

Definition isNaN (a : number) : bool :=
  match a with NaN => true | Num _ => false end.

(** Truthiness of a number: [0] and [NaN] are falsy. *)
Definition truthy (a : number) : bool :=
  match a with NaN => false | Num z => negb (z =? 0) end.

(** The values a slot of a match array, or the argument of [parseInput],
    can hold. *)
Inductive value : Type :=
| JUndefined
| JNull
| JString (s : jsstring).

(** [util.isNullOrUndefined] *)
Definition isNullOrUndefined (v : value) : bool :=
  match v with JUndefined | JNull => true | JString _ => false end.

(** [v !== null] and [v === null] *)
Definition strict_neq_null (v : value) : bool :=
  match v with JNull => false | _ => true end.

Definition strict_eq_null (v : value) : bool := negb (strict_neq_null v).

(** Exceptions. *)
Inductive jserror : Type :=
| TypeError
| SyntaxError
| Error (message : jsstring).

(** The completion of an expression that may throw. *)
Inductive completion (A : Type) : Type :=
| Normal (a : A)
| Throw (e : jserror).
Arguments Normal {A} a.
Arguments Throw {A} e.

Definition bind {A B : Type} (c : completion A) (k : A -> completion B)
  : completion B :=
  match c with
  | Normal a => k a
  | Throw e => Throw e
  end.

(** [v.length]: reading a property of [undefined] or [null] is a
    [TypeError]. *)
Definition length_of (v : value) : completion Z :=
  match v with
  | JString s => Normal (Z.of_nat (List.length s))
  | JUndefined | JNull => Throw TypeError
  end.

(** [a[i]]: indexing [null] is a [TypeError]; an index past the end of an
    array reads [undefined]. *)
Definition item (a : option (list value)) (i : nat) : completion value :=
  match a with
  | Some l => Normal (nth i l JUndefined)
  | None => Throw TypeError
  end.

(** The string a value is, once a property of it has been read without a
    fault. *)
Definition string_of (v : value) : jsstring :=
  match v with JString s => s | _ => [] end.

(** *** White space and digits *)

(** [WhiteSpace] and [LineTerminator] code units: what [\s] matches and what
    [parseInt] skips. *)
Definition is_line_terminator (c : N) : bool :=
  (N.eqb c 10 || N.eqb c 13 || N.eqb c 8232 || N.eqb c 8233)%bool.

Definition is_white_space (c : N) : bool :=
  (N.eqb c 9 || N.eqb c 11 || N.eqb c 12 || N.eqb c 32 || N.eqb c 160
   || N.eqb c 5760 || (N.leb 8192 c && N.leb c 8202) || N.eqb c 8239
   || N.eqb c 8287 || N.eqb c 12288 || N.eqb c 65279
   || is_line_terminator c)%bool.

Definition is_decimal_digit (c : N) : bool := (N.leb 48 c && N.leb c 57)%bool.

(** The value of a code unit as a digit, for radix up to 36. *)
Definition digit_value (c : N) : option Z :=
  if is_decimal_digit c then Some (Z.of_N c - 48)
  else if (N.leb 97 c && N.leb c 122)%bool then Some (Z.of_N c - 87)
  else if (N.leb 65 c && N.leb c 90)%bool then Some (Z.of_N c - 55)
  else None.

Definition is_radix_digit (radix : Z) (c : N) : bool :=
  match digit_value c with Some d => d <? radix | None => false end.

Fixpoint drop_white_space (s : jsstring) : jsstring :=
  match s with
  | c :: s' => if is_white_space c then drop_white_space s' else s
  | [] => []
  end.

Fixpoint take_digits (radix : Z) (s : jsstring) : jsstring :=
  match s with
  | c :: s' => if is_radix_digit radix c then c :: take_digits radix s' else []
  | [] => []
  end.

Definition digits_to_Z (radix : Z) (ds : jsstring) : Z :=
  fold_left (fun acc c =>
               acc * radix + match digit_value c with Some d => d | None => 0 end)
            ds 0.

(** [parseInt(s)] with no radix argument: skip white space, read a sign,
    switch to radix 16 after [0x]/[0X], and read the longest run of
    digits; no digit at all gives [NaN]. *)
Definition parseInt (s : jsstring) : number :=
  let s1 := drop_white_space s in
  let '(sign, s2) :=
    match s1 with
    | c :: t => if N.eqb c (chr "-") then (-1, t)
                else if N.eqb c (chr "+") then (1, t)
                else (1, s1)
    | [] => (1, s1)
    end in
  let '(radix, s3) :=
    match s2 with
    | z :: x :: t =>
        if (N.eqb z (chr "0") && (N.eqb x (chr "x") || N.eqb x (chr "X")))%bool
        then (16, t) else (10, s2)
    | _ => (10, s2)
    end in
  match take_digits radix s3 with
  | [] => NaN
  | ds => Num (sign * digits_to_Z radix ds)
  end.

(** [s.split(sep)] for a separator of one code unit. *)
Fixpoint split (sep : N) (s : jsstring) : list jsstring :=
  match s with
  | [] => [[]]
  | c :: s' =>
      if N.eqb c sep then [] :: split sep s'
      else match split sep s' with
           | part :: parts => (c :: part) :: parts
           | [] => [[c]]
           end
  end.

(** [s.startsWith(c, 0)] for a prefix of one code unit. *)
Definition startsWith (c : N) (s : jsstring) : bool :=
  match s with d :: _ => N.eqb d c | [] => false end.

(** [s.substring(1, s.length)] *)
Definition substring1 (s : jsstring) : jsstring := List.tl s.

(** [s.charAt(0)]: the empty string when [s] is empty. *)
Definition charAt0 (s : jsstring) : jsstring :=
  match s with c :: _ => [c] | [] => [] end.

(** *** Dates *)

Definition msPerDay : Z := 1000 * 60 * 60 * 24.

Definition DayFromYear (y : Z) : Z :=
  365 * (y - 1970) + (y - 1969) / 4 - (y - 1901) / 100 + (y - 1601) / 400.

Definition InLeapYear (y : Z) : bool :=
  ((y mod 4 =? 0) && (negb (y mod 100 =? 0) || (y mod 400 =? 0)))%bool.

(** Days of the year before the first of month [mn] (0-based). *)
Definition DaysBeforeMonth (leap : bool) (mn : Z) : Z :=
  let base := nth (Z.to_nat mn)
                  [0; 31; 59; 90; 120; 151; 181; 212; 243; 273; 304; 334] 0 in
  if (leap && (2 <=? mn))%bool then base + 1 else base.

(** [MakeDay(year, month, date)]: months outside 0..11 carry into the
    year, and dates outside the month carry into the neighbouring months. *)
Definition MakeDay (year month date : Z) : Z :=
  let ym := year + month / 12 in
  let mn := month mod 12 in
  DayFromYear ym + DaysBeforeMonth (InLeapYear ym) mn + date - 1.

(** [Date.UTC(year, month, date)] in milliseconds: years 0..99 mean
    1900..1999, and a time value beyond 8.64e15 is [NaN]. *)
Definition Date_UTC (year month date : number) : number :=
  match year, month, date with
  | Num y, Num m, Num d =>
      let yr := if ((0 <=? y) && (y <=? 99))%bool then 1900 + y else y in
      let t := MakeDay yr m d * msPerDay in
      if Z.abs t <=? 8640000000000000 then Num t else NaN
  | _, _, _ => NaN
  end.

(** [Math.floor(a / b)] for a positive integer [b]. *)
Definition floor_div (a : number) (b : Z) : number :=
  match a with Num x => Num (x / b) | NaN => NaN end.

(** The calendar fields a [Date] object answers in local time. *)
Record Date : Type := mkDate {
  getFullYear : Z;
  getMonth : Z;      (* 0..11 *)
  getDate : Z;       (* 1..31 *)
  getDay : Z         (* 0 = Sunday .. 6 = Saturday *)
}.

End JS.

(** ** Regular expressions

    The fragment of ECMAScript patterns the parser is written in: literals,
    [\d], [\s], [.], [^], [$], groups (capturing or not), alternation and
    greedy quantifiers.  A pattern is compiled from its source text, as
    [new RegExp(text)] does, and matched by backtracking in the order the
    language prescribes (alternatives left to right, quantifiers greedy), so
    that the capture slots come out as they do at run time: a group that
    took no part in the match is [undefined]. *)

Module RegExp.
Import JS.

Inductive cclass : Type :=
| Digit     (* \d *)
| Space     (* \s *)
| Dot.      (* .  *)

Inductive regex : Type :=
| Eps
| Lit (c : N)
| Cls (k : cclass)
| Bol                                            (* ^ *)
| Eol                                            (* $ *)
| Seq (a b : regex)
| Alt (a b : regex)
| Cap (n : nat) (a : regex)                      (* capturing group n *)
| Rep (lo : nat) (hi : option nat) (a : regex).  (* greedy {lo,hi} *)

Record RegExp : Type := mkRegExp {
  ast : regex;
  ngroups : nat
}.

(** *** Compiling a pattern *)

Definition isc (a : ascii) (c : N) : bool := N.eqb c (chr a).

Definition mkSeq (a b : regex) : regex :=
  match b with Eps => a | _ => Seq a b end.

Fixpoint read_nat (s : jsstring) (acc : nat) : nat * jsstring :=
  match s with
  | c :: t =>
      if is_decimal_digit c
      then read_nat t (10 * acc + (N.to_nat c - 48))%nat
      else (acc, s)
  | [] => (acc, s)
  end.

(** The quantifier, if any, at the head of [s].  [None] is a pattern outside
    the fragment (a lazy quantifier, a malformed brace). *)
Definition parse_quantifier (s : jsstring)
  : option (option (nat * option nat) * jsstring) :=
  let greedy (q : nat * option nat) (t : jsstring) :=
    match t with
    | c :: _ => if isc "?" c then None else Some (Some q, t)
    | [] => Some (Some q, t)
    end in
  match s with
  | c :: t =>
      if isc "?" c then greedy (0%nat, Some 1%nat) t
      else if isc "*" c then greedy (0%nat, None) t
      else if isc "+" c then greedy (1%nat, None) t
      else if isc "{" c then
        match t with
        | d :: _ =>
            if is_decimal_digit d then
              let '(lo, t1) := read_nat t 0%nat in
              match t1 with
              | e :: t2 =>
                  if isc "}" e then greedy (lo, Some lo) t2
                  else if isc "," e then
                    match t2 with
                    | f :: t3 =>
                        if isc "}" f then greedy (lo, None) t3
                        else if is_decimal_digit f then
                          let '(hi, t4) := read_nat t2 0%nat in
                          match t4 with
                          | g :: t5 => if isc "}" g then greedy (lo, Some hi) t5
                                       else None
                          | [] => None
                          end
                        else None
                    | [] => None
                    end
                  else None
              | [] => None
              end
            else None
        | [] => None
        end
      else Some (None, s)
  | [] => Some (None, s)
  end.

Definition quantified (a : regex) (s : jsstring) (next : nat)
  : option (regex * jsstring * nat) :=
  match parse_quantifier s with
  | Some (Some (lo, hi), t) => Some (Rep lo hi a, t, next)
  | Some (None, t) => Some (a, t, next)
  | None => None
  end.

(** Disjunction, alternative and term of the pattern grammar; [next] is the
    number the next capturing group gets.  The fuel bounds the depth of the
    descent and is taken from the length of the pattern. *)
Fixpoint parse_disjunction (fuel : nat) (s : jsstring) (next : nat)
  : option (regex * jsstring * nat) :=
  match fuel with
  | O => None
  | S f =>
      match parse_alternative f s next with
      | Some (a, s1, n1) =>
          match s1 with
          | c :: s2 =>
              if isc "|" c then
                match parse_disjunction f s2 n1 with
                | Some (b, s3, n3) => Some (Alt a b, s3, n3)
                | None => None
                end
              else Some (a, s1, n1)
          | [] => Some (a, s1, n1)
          end
      | None => None
      end
  end
with parse_alternative (fuel : nat) (s : jsstring) (next : nat)
  : option (regex * jsstring * nat) :=
  match fuel with
  | O => None
  | S f =>
      match s with
      | [] => Some (Eps, s, next)
      | c :: _ =>
          if (isc "|" c || isc ")" c)%bool then Some (Eps, s, next)
          else
            match parse_term f s next with
            | Some (t, s1, n1) =>
                match parse_alternative f s1 n1 with
                | Some (r, s2, n2) => Some (mkSeq t r, s2, n2)
                | None => None
                end
            | None => None
            end
      end
  end
with parse_term (fuel : nat) (s : jsstring) (next : nat)
  : option (regex * jsstring * nat) :=
  match fuel with
  | O => None
  | S f =>
      let close (wrap : regex -> regex) (t : jsstring) (n : nat) :=
        match parse_disjunction f t n with
        | Some (a, c :: t1, n1) =>
            if isc ")" c then quantified (wrap a) t1 n1 else None
        | _ => None
        end in
      match s with
      | [] => None
      | c :: t =>
          if isc "(" c then
            match t with
            | q :: t1 =>
                if isc "?" q then
                  match t1 with
                  | k :: t2 => if isc ":" k then close (fun a => a) t2 next
                               else None
                  | [] => None
                  end
                else close (Cap next) t (S next)
            | [] => None
            end
          else if isc "\" c then
            match t with
            | e :: t1 =>
                if isc "d" e then quantified (Cls Digit) t1 next
                else if isc "s" e then quantified (Cls Space) t1 next
                else if (is_radix_digit 36 e || isc "_" e)%bool then None
                else quantified (Lit e) t1 next
            | [] => None
            end
          else if isc "." c then quantified (Cls Dot) t next
          else if isc "^" c then Some (Bol, t, next)
          else if isc "$" c then Some (Eol, t, next)
          else if (isc "*" c || isc "+" c || isc "?" c || isc "{" c || isc "}" c
                   || isc "[" c || isc "]" c)%bool then None
          else quantified (Lit c) t next
      end
  end.

(** [new RegExp(pattern)]: a pattern that does not parse is a
    [SyntaxError]. *)
Definition RegExp_new (pattern : jsstring) : completion RegExp :=
  match parse_disjunction (3 * S (List.length pattern)) pattern 1 with
  | Some (a, [], n) => Normal {| ast := a; ngroups := Nat.pred n |}
  | _ => Throw SyntaxError
  end.

(** *** Matching *)

Record mstate : Type := mkState {
  rest : jsstring;         (* the input from the current position on *)
  pos : nat;               (* the current position *)
  caps : list value        (* capture slots, by group number *)
}.

Definition matcher : Type := mstate -> (mstate -> option mstate) -> option mstate.

Fixpoint set_nth (n : nat) (v : value) (l : list value) : list value :=
  match l, n with
  | [], _ => []
  | _ :: t, O => v :: t
  | x :: t, S n' => x :: set_nth n' v t
  end.

Definition set_cap (n : nat) (v : value) (x : mstate) : mstate :=
  {| rest := rest x; pos := pos x; caps := set_nth n v (caps x) |}.

Definition clear_caps (gs : list nat) (x : mstate) : mstate :=
  fold_left (fun y n => set_cap n JUndefined y) gs x.

Definition class_matches (k : cclass) (c : N) : bool :=
  match k with
  | Digit => is_decimal_digit c
  | Space => is_white_space c
  | Dot => negb (is_line_terminator c)
  end.

Definition one_char (ok : N -> bool) : matcher :=
  fun x k =>
    match rest x with
    | c :: t =>
        if ok c then k {| rest := t; pos := S (pos x); caps := caps x |}
        else None
    | [] => None
    end.

(** The capturing groups inside a pattern, which an iteration of a
    quantifier resets before it starts. *)
Fixpoint groups (r : regex) : list nat :=
  match r with
  | Seq a b | Alt a b => groups a ++ groups b
  | Cap n a => n :: groups a
  | Rep _ _ a => groups a
  | _ => []
  end.

(** The greedy quantifier: at most [hi] iterations of [m], at least [lo];
    once [lo] is reached an iteration that consumes nothing is refused, so
    every further iteration shortens the input and [fuel], which starts
    above [lo] plus the length of the input, is never used up. *)
Fixpoint RepeatMatcher (m : matcher) (gs : list nat) (fuel lo : nat)
    (hi : option nat) (x : mstate) (k : mstate -> option mstate)
  : option mstate :=
  match fuel with
  | O => None
  | S f =>
      match hi with
      | Some O => k x
      | _ =>
          let d := fun y : mstate =>
            if (Nat.eqb lo 0 && Nat.eqb (pos y) (pos x))%bool then None
            else RepeatMatcher m gs f (Nat.pred lo) (option_map Nat.pred hi) y k in
          let xr := clear_caps gs x in
          if Nat.eqb lo 0 then
            match m xr d with
            | Some z => Some z
            | None => k x
            end
          else m xr d
      end
  end.

Fixpoint compile (r : regex) : matcher :=
  match r with
  | Eps => fun x k => k x
  | Lit c => one_char (N.eqb c)
  | Cls cl => one_char (class_matches cl)
  | Bol => fun x k => if Nat.eqb (pos x) 0 then k x else None
  | Eol => fun x k => match rest x with [] => k x | _ :: _ => None end
  | Seq a b => fun x k => compile a x (fun y => compile b y k)
  | Alt a b => fun x k =>
      match compile a x k with
      | Some z => Some z
      | None => compile b x k
      end
  | Cap n a => fun x k =>
      compile a x (fun y =>
        k (set_cap n (JString (firstn (pos y - pos x) (rest x))) y))
  | Rep lo hi a => fun x k =>
      RepeatMatcher (compile a) (groups a)
                    (S (lo + List.length (rest x))) lo hi x k
  end.

(** One attempt at position [p], where [input] is what is left of the
    subject: the match array holds the matched text, then the capture
    slots. *)
Definition match_at (re : RegExp) (input : jsstring) (p : nat)
  : option (list value) :=
  let x := {| rest := input; pos := p;
              caps := repeat JUndefined (S (ngroups re)) |} in
  match compile (ast re) x Some with
  | Some y => Some (JString (firstn (pos y - p) input) :: List.tl (caps y))
  | None => None
  end.

(** [re.exec(s)] without the global flag: the leftmost position with a
    match, or [null] ([None]). *)
Fixpoint exec_from (re : RegExp) (input : jsstring) (p : nat)
  : option (list value) :=
  match match_at re input p with
  | Some a => Some a
  | None =>
      match input with
      | [] => None
      | _ :: t => exec_from re t (S p)
      end
  end.

Definition exec (re : RegExp) (s : jsstring) : option (list value) :=
  exec_from re s 0.

(** [s.match(re)] for a regular expression without the global flag. *)
Definition String_match (s : jsstring) (re : RegExp) : option (list value) :=
  exec re s.

(** Slots that hold a string or [undefined], never [null]. *)
Definition defined_or_absent (l : list value) : Prop :=
  Forall (fun v => v <> JNull) l.

(** A matcher that, started on such slots, hands such slots on to its
    continuation. *)
Definition sound (m : matcher) : Prop :=
  forall x k z,
    m x k = Some z -> defined_or_absent (caps x) ->
    exists y, defined_or_absent (caps y) /\ k y = Some z.

(** [y] is [x] moved forward over part of the input. *)
Definition ahead (x y : mstate) : Prop :=
  (pos x <= pos y)%nat /\
  (pos y + List.length (rest y) = pos x + List.length (rest x))%nat.

(** A matcher that only looks at what its continuation does ahead of the
    state it is started in. *)
Definition local (m : matcher) : Prop :=
  forall x k k',
    (forall y, ahead x y -> k y = k' y) -> m x k = m x k'.

End RegExp.


(** ** The modules the parser imports: [J.Model] and [J.Util] *)

Module Model.
Import JS.

(** Modelled from the spec: the class [J.Model.Input], whose source is not
    part of [parser.ts].  It carries the flag classification, the day offset
    (a number, or [NaN] when unresolved), the memo text and the scope; flags
    and text are present when they are not empty, and the offset is present
    when it is resolved. *)
Record Input : Type := mkInput {
  flags : jsstring;
  offset : number;
  text : value;
  scope : jsstring
}.

(** Modelled from the spec: [hasFlags()], flags are present when the
    classification is not empty. *)
Definition hasFlags (i : Input) : bool :=
  match flags i with [] => false | _ :: _ => true end.

(** Modelled from the spec: [hasMemo()], text is present when it is a
    string that is not empty. *)
Definition hasMemo (i : Input) : bool :=
  match text i with JString (_ :: _) => true | _ => false end.

(** Modelled from the spec: [hasOffset()], the offset is present unless it
    is the unresolved sentinel [NaN]. *)
Definition hasOffset (i : Input) : bool := negb (isNaN (offset i)).

Definition set_flags (i : Input) (f : jsstring) : Input :=
  {| flags := f; offset := offset i; text := text i; scope := scope i |}.

Definition set_offset (i : Input) (o : number) : Input :=
  {| flags := flags i; offset := o; text := text i; scope := scope i |}.

End Model.

Module Util.
Import JS.

(** [J.Util.getDayOfWeekForString] is imported by the parser and its source
    is not part of [parser.ts]: the parser is written against any such
    lookup. *)
Class DayNames : Type := {
  getDayOfWeekForString : jsstring -> number
}.

(** Modelled from the spec: the weekday vocabulary of the grammar (English
    full and three-letter names, German full names) with the index of each
    day in the numbering of [Date.getDay], Sunday being 0. *)
Definition weekdays : list (list string * Z) :=
  [ (["sunday"; "sun"; "sonntag"], 0);
    (["monday"; "mon"; "montag"], 1);
    (["tuesday"; "tue"; "dienstag"], 2);
    (["wednesday"; "wed"; "mittwoch"], 3);
    (["thursday"; "thu"; "donnerstag"], 4);
    (["friday"; "fri"; "freitag"], 5);
    (["saturday"; "sat"; "samstag"], 6) ]%string.

(** Modelled from the spec: the lookup of [J.Util], which gives a weekday
    name of the vocabulary its index; what it answers for any other string
    is not specified and is taken to be [NaN]. *)
Definition dayOfWeek (day : jsstring) : number :=
  match find (fun e => existsb (fun n => jsstring_eqb day (str n)) (fst e))
             weekdays with
  | Some e => Num (snd e)
  | None => NaN
  end.

(** Modelled from the spec: [J.Util] with the lookup above. *)
Definition fromSpec : DayNames := {| getDayOfWeekForString := dayOfWeek |}.

End Util.

(** ** The parser *)

Module Parser.
Import JS RegExp Model Util.

Notation "x <- c ;; k" := (bind c (fun x => k))
  (at level 61, c at next level, right associativity).

(** *** Promises

    The executor of [Q.Promise] runs at once with the two callbacks
    [resolve] and [reject]; the first call of either settles the promise and
    every later call is ignored. *)

Inductive reason : Type :=
| RString (s : jsstring)     (* reject("...") *)
| RError (e : jserror).      (* reject(error) *)

Inductive outcome : Type :=
| Resolved (i : Input)
| Rejected (r : reason).

Record Parser : Type := mkParser {
  today : Date;
  expr : option RegExp
}.

(** The state an executor acts on: the parser instance and the promise. *)
Record world : Type := mkWorld {
  this : Parser;
  settled : option outcome
}.

Definition action (A : Type) : Type := world -> completion A * world.

Definition ret {A : Type} (a : A) : action A := fun w => (Normal a, w).

Definition abind {A B : Type} (c : action A) (k : A -> action B) : action B :=
  fun w =>
    match c w with
    | (Normal a, w') => k a w'
    | (Throw e, w') => (Throw e, w')
    end.

Notation "x <~ c ;; k" := (abind c (fun x => k))
  (at level 61, c at next level, right associativity).
Notation "'do' c ;; k" := (abind c (fun _ => k))
  (at level 61, c at next level, right associativity).

Definition lift {A : Type} (c : completion A) : action A := fun w => (c, w).

Definition settle (o : outcome) : action unit :=
  fun w =>
    (Normal tt,
     {| this := this w;
        settled := match settled w with Some _ => settled w | None => Some o end |}).

Definition resolve (i : Input) : action unit := settle (Resolved i).
Definition reject (r : reason) : action unit := settle (Rejected r).

Definition when (b : bool) (c : action unit) : action unit :=
  if b then c else ret tt.

(** [try { body } catch (error) { handler(error) }] *)
Definition try_catch (body : action unit) (handler : jserror -> action unit)
  : action unit :=
  fun w =>
    match body w with
    | (Normal u, w') => (Normal u, w')
    | (Throw e, w') => handler e w'
    end.

Definition get_this : action Parser := fun w => (Normal (this w), w).

Definition set_today (d : Date) : action unit :=
  fun w =>
    (Normal tt,
     {| this := {| today := d; expr := expr (this w) |}; settled := settled w |}).

(** [constructor]: today's date is taken, the expression is not built
    yet. *)
Definition new_Parser (now : Date) : Parser := {| today := now; expr := None |}.

(** A regular expression literal, compiled when the program is read. *)
Definition literal (pattern : string) : RegExp :=
  match RegExp_new (str pattern) with
  | Normal re => re
  | Throw _ => {| ast := Eps; ngroups := 0 |}
  end.

Definition matches (s : jsstring) (re : RegExp) : bool :=
  match String_match s re with Some _ => true | None => false end.

Section Methods.
Context {U : DayNames}.

Definition extractScope (values : option (list value)) : jsstring :=
  str "default".

Definition extractText (values : option (list value)) : completion value :=
  v8 <- item values 8 ;;
  Normal (if strict_eq_null v8 then JString (str "") else v8).

Definition extractFlags (values : option (list value)) : completion jsstring :=
  v1 <- item values 1 ;;
  res <- (if negb (isNullOrUndefined v1) then Normal v1 else item values 7) ;;
  Normal (if isNullOrUndefined res then str "" else string_of res).

Definition resolveOffsetString (value : jsstring) : number :=
  if startsWith (chr "+") value then parseInt (substring1 value)
  else if startsWith (chr "-") value
       then num_mul (parseInt (substring1 value)) (Num (-1))
  else NaN.

Definition resolveShortcutString (value : jsstring) : number :=
  if matches value (literal "today|tod|heute|0") then Num 0
  else if matches value (literal "tomorrow|tom|morgen") then Num 1
  else if matches value (literal "yesterday|yes|gestern") then Num (-1)
  else NaN.

(** The first half of [resolveISOString]: the token is split on [-] and
    [year], [month] (0-based) and [day] are read from its parts; a variable
    that is not assigned stays [undefined] ([None]). *)
Definition isoFields (value : jsstring)
  : option number * option number * option number :=
  let dt := split (chr "-") value in
  let part (i : nat) := nth i dt [] in
  if (3 <=? List.length dt)%nat then
    (Some (parseInt (part 0%nat)),
     Some (num_sub (parseInt (part 1%nat)) (Num 1)),
     Some (parseInt (part 2%nat)))
  else if (2 <=? List.length dt)%nat then
    (None,
     Some (num_sub (parseInt (part 0%nat)) (Num 1)),
     Some (parseInt (part 1%nat)))
  else
    (None, None, Some (parseInt (part 0%nat))).

(** [!isNullOrUndefined(x) && (x < lo || x > hi)] *)
Definition outside (x : option number) (lo hi : Z) : bool :=
  match x with
  | Some n => (num_lt n (Num lo) || num_gt n (Num hi))%bool
  | None => false
  end.

Definition resolveISOString (this : Parser) (value : jsstring)
  : completion number :=
  let todayInMS :=
    Date_UTC (Num (getFullYear (today this))) (Num (getMonth (today this)))
             (Num (getDate (today this))) in
  let dt := split (chr "-") value in
  let part (i : nat) := nth i dt [] in
  let '(year, month, day) := isoFields value in
  if outside month 0 12 then Throw (Error (str "Invalid value for month"))
  else if outside day 0 31 then Throw (Error (str "Invalid value for day"))
  else
    inputInMS <-
      match year, month, day with
      | Some _, _, _ =>
          (* full date with year (e.g. 2016-10-24) *)
          Normal (Date_UTC (parseInt (part 0%nat))
                           (num_sub (parseInt (part 1%nat)) (Num 1))
                           (parseInt (part 2%nat)))
      | None, Some _, _ =>
          (* month and day (eg. 10-24) *)
          Normal (Date_UTC (Num (getFullYear (today this)))
                           (num_sub (parseInt (part 0%nat)) (Num 1))
                           (parseInt (part 1%nat)))
      | None, None, Some d =>
          if truthy d then
            (* just a day *)
            Normal (Date_UTC (Num (getFullYear (today this)))
                             (Num (getMonth (today this)))
                             (parseInt (part 0%nat)))
          else Throw (Error (str "Failed to parse the date"))
      | None, None, None => Throw (Error (str "Failed to parse the date"))
      end ;;
    Normal (floor_div (num_sub inputInMS todayInMS) msPerDay).

Definition resolveWeekday (this : Parser) (mod_ weekday : jsstring) : number :=
  (* get name of weekday in input *)
  let searchedDay := getDayOfWeekForString weekday in
  let currentDay := Num (getDay (today this)) in
  let diff := num_sub searchedDay currentDay in
  (* toggle mode (next or last) *)
  let next := jsstring_eqb (charAt0 mod_) (str "n") in
  if (negb next && num_lt diff (Num 0))%bool then diff
  else if (negb next && num_ge diff (Num 0))%bool then num_sub diff (Num 7)
  else if (next && num_le diff (Num 0))%bool then num_add diff (Num 7)
  else if (next && num_gt diff (Num 0))%bool then diff
  else NaN.

Definition extractOffset (this : Parser) (values : option (list value))
  : completion number :=
  v2 <- item values 2 ;;
  let shortcut := if strict_neq_null v2 then v2 else JString (str "") in
  n2 <- length_of shortcut ;;
  if 0 <? n2 then Normal (resolveShortcutString (string_of shortcut)) else
  v3 <- item values 3 ;;
  let offset := if strict_neq_null v3 then v3 else JString (str "") in
  n3 <- length_of offset ;;
  if 0 <? n3 then Normal (resolveOffsetString (string_of offset)) else
  v4 <- item values 4 ;;
  let iso := if strict_neq_null v4 then v4 else JString (str "") in
  n4 <- length_of iso ;;
  if 0 <? n4 then resolveISOString this (string_of iso) else
  v5 <- item values 5 ;;
  let nextLast := if strict_neq_null v5 then v5 else JString (str "") in
  v6 <- item values 6 ;;
  let weekday := if strict_neq_null v6 then v6 else JString (str "") in
  n5 <- length_of nextLast ;;
  if 0 <? n5 then
    n6 <- length_of weekday ;;
    if 0 <? n6
    then Normal (resolveWeekday this (string_of nextLast) (string_of weekday))
    else Normal NaN
  else Normal NaN.

Definition flagsRX : jsstring := str "(?:(task|todo)\s)".
Definition shortcutRX : jsstring :=
  str "(?:(today|tod|yesterday|yes|tomorrow|tom|0)(?:\s|$))".
Definition offsetRX : jsstring := str "(?:((?:\+|\-)\d+)(?:\s|$))".
Definition isoDateRX : jsstring :=
  str "(?:((?:\d{4}\-\d{1,2}\-\d{1,2})|(?:\d{1,2}\-\d{1,2})|(?:\d{1,2}))(?:\s|$))".
Definition weekdayRX : jsstring :=
  str "(?:(next|last|n|l)\s(monday|tuesday|wednesday|thursday|friday|saturday|sunday|mon|tue|wed|thu|fri|sat|sun|montag|dienstag|mittwoch|donnerstag|freitag|samstag|sonntag)\s?)".

Definition completeExpression : jsstring :=
  str "^" ++ flagsRX ++ str "?(?:" ++ shortcutRX ++ str "|" ++ offsetRX
  ++ str "|" ++ isoDateRX ++ str "|" ++ weekdayRX ++ str ")?" ++ flagsRX
  ++ str "?(.*)" ++ str "$".

(** The expression is built on first use and kept in [this.expr]. *)
Definition getExpression : action RegExp :=
  fun w =>
    match expr (this w) with
    | None =>
        match RegExp_new completeExpression with
        | Normal re =>
            (Normal re,
             {| this := {| today := today (this w); expr := Some re |};
                settled := settled w |})
        | Throw e => (Throw e, w)
        end
    | Some re => (Normal re, w)
    end.

(** [value.match]: reading the method of [null] or [undefined] is a
    [TypeError], raised before the argument is evaluated. *)
Definition receiver (value : value) : completion jsstring :=
  match value with
  | JString s => Normal s
  | JUndefined | JNull => Throw TypeError
  end.

Definition is_null (res : option (list JS.value)) : bool :=
  match res with None => true | Some _ => false end.

(** The executor of the promise [parseInput] returns; [now] is what
    [new Date()] answers during the call. *)
Definition executor (now : Date) (value : value) : action unit :=
  do when (isNullOrUndefined value) (reject (RString (str "cancel"))) ;;
  try_catch
    (do set_today now ;;
     s <~ lift (receiver value) ;;
     re <~ getExpression ;;
     let res := String_match s re in
     do when (is_null res) (reject (RString (str "cancel"))) ;;
     self <~ get_this ;;
     flags <~ lift (extractFlags res) ;;
     offset <~ lift (extractOffset self res) ;;
     text <~ lift (extractText res) ;;
     let input := mkInput flags offset text (extractScope res) in
     (* flags but no text, show error *)
     do when (hasFlags input && negb (hasMemo input))
             (reject (RString (str "No text found for memo or task"))) ;;
     (* text but no flags, we default to "memo" *)
     input <~ (if (negb (hasFlags input) && hasMemo input)%bool then
                 n <~ lift (length_of (Model.text input)) ;;
                 (* but only if exceeds a certain length *)
                 ret (if 6 <? n then set_flags input (str "memo") else input)
               else ret input) ;;
     (* if not temporal modifier in input, but flag and text, we default to
        today *)
     let input :=
       if (negb (hasOffset input) && hasFlags input && hasMemo input)%bool
       then set_offset input (Num 0) else input in
     resolve input)
    (fun error => reject (RError error)).

(** [parseInput(value)]: the state of the promise once the executor has
    run, and the parser instance as the call leaves it.  An exception that
    escapes the executor rejects the promise. *)
Definition parseInput (self : Parser) (now : Date) (value : value)
  : option outcome * Parser :=
  match executor now value {| this := self; settled := None |} with
  | (Normal _, w) => (settled w, this w)
  | (Throw e, w) =>
      (match settled w with
       | Some o => Some o
       | None => Some (Rejected (RError e))
       end, this w)
  end.

(** The expression cache of an instance holds nothing or the compiled
    expression: [expr] is private and only [getExpression] writes it. *)
Definition cache_ok (self : Parser) : Prop :=
  forall re, expr self = Some re -> RegExp_new completeExpression = Normal re.

(** The outcome of a call on an instance that has just been constructed:
    what [parseInput] computes from the input and the reference date
    alone. *)
Definition parse (now : Date) (value : value) : option outcome :=
  fst (parseInput (new_Parser now) now value).

End Methods.

(** The expression [getExpression] builds, compiled once and for all. *)
Definition compiledExpression : RegExp :=
  Eval vm_compute in
    match RegExp_new completeExpression with
    | Normal re => re
    | Throw _ => {| ast := Eps; ngroups := 0 |}
    end.

(** The two outcomes the callers tell apart from an internal fault. *)
Definition cancelled : option outcome :=
  Some (Rejected (RString (str "cancel"))).

Definition noText : option outcome :=
  Some (Rejected (RString (str "No text found for memo or task"))).

Definition faulted (e : jserror) : option outcome :=
  Some (Rejected (RError e)).

(** The direction [resolveWeekday] reads off the modifier. *)
Definition isNext (mod_ : jsstring) : bool :=
  jsstring_eqb (charAt0 mod_) (str "n").

(** The range condition of the specification on the fields of a calendar
    token: a month that is present lies outside [0, 12], or a day that is
    present lies outside [0, 31]. *)
Definition rangeViolation (value : jsstring) : bool :=
  let '(_, month, day) := isoFields value in
  (outside month 0 12 || outside day 0 31)%bool.

(** A token with neither year nor month whose day is [0] or not a number:
    the case [resolveISOString] gives up on. *)
Definition noUsableDay (value : jsstring) : bool :=
  match isoFields value with
  | (None, None, Some d) => negb (truthy d)
  | (None, None, None) => true
  | _ => false
  end.

(** The number a string of decimal digits denotes. *)
Definition decimal (ds : jsstring) : Z :=
  fold_left (fun acc c => 10 * acc + (Z.of_N c - 48)) ds 0.

(** Six absent slots in a row. *)
Definition absent6 : list value :=
  [JUndefined; JUndefined; JUndefined; JUndefined; JUndefined; JUndefined].

(** A reference date for the examples: Wednesday, 14 February 2024. *)
Definition sampleDate : Date :=
  {| getFullYear := 2024; getMonth := 1; getDate := 14; getDay := 3 |}.

End Parser.


(** ** Vocabulary of the further properties

    What a pattern accepts, what the slots of the complete expression can
    hold, and the outcome of [parseInput] read off the slots of a match. *)

Import JS RegExp Model Util Parser.

Section GrammarVocabulary.
Local Open Scope nat_scope.

(** The strings a pattern can consume, assertions aside. *)
Fixpoint accepts (r : regex) (w : jsstring) : Prop :=
  match r with
  | Eps | Bol | Eol => w = []
  | Lit c => w = [c]
  | Cls k => exists c, w = [c] /\ class_matches k c = true
  | Seq a b => exists u v, w = u ++ v /\ accepts a u /\ accepts b v
  | Alt a b => accepts a w \/ accepts b w
  | Cap _ a => accepts a w
  | Rep lo hi a =>
      exists ws, w = List.concat ws /\ Forall (accepts a) ws /\
                 match hi with
                 | Some h => (Nat.min lo h <= List.length ws <= h)%nat
                 | None => (lo <= List.length ws)%nat
                 end
  end.

(** Every capturing group of [r] numbered [n] can only capture strings that
    satisfy [Q n]. *)
Fixpoint captures_ok (Q : nat -> jsstring -> Prop) (r : regex) : Prop :=
  match r with
  | Seq a b | Alt a b => captures_ok Q a /\ captures_ok Q b
  | Cap n a => (forall w, accepts a w -> Q n w) /\ captures_ok Q a
  | Rep _ _ a => captures_ok Q a
  | _ => True
  end.

(** The slots that hold a string hold one that satisfies [Q]. *)
Definition slots_ok (Q : nat -> jsstring -> Prop) (l : list value) : Prop :=
  forall n w, nth n l JUndefined = JString w -> Q n w.

(** [y] is reached from [x] by consuming [w]. *)
Definition consumed (x y : mstate) (w : jsstring) : Prop :=
  rest x = w ++ rest y /\ pos y = (pos x + List.length w)%nat /\
  List.length (caps y) = List.length (caps x).

(** A matcher for [r] only ever continues after consuming a string [r]
    accepts, with slots that satisfy [Q]. *)
Definition tracks (r : regex) (m : matcher) : Prop :=
  forall Q x k z,
    captures_ok Q r -> slots_ok Q (caps x) -> m x k = Some z ->
    exists y w, k y = Some z /\ consumed x y w /\ accepts r w /\
                slots_ok Q (caps y).

(** The finitely many strings a pattern of literals, sequences and
    alternatives accepts, in the order of its alternatives. *)
Fixpoint finite (r : regex) : option (list jsstring) :=
  match r with
  | Eps => Some [[]]
  | Lit c => Some [[c]]
  | Seq a b =>
      match finite a, finite b with
      | Some la, Some lb => Some (flat_map (fun u => List.map (app u) lb) la)
      | _, _ => None
      end
  | Alt a b =>
      match finite a, finite b with
      | Some la, Some lb => Some (la ++ lb)
      | _, _ => None
      end
  | Cap _ a => finite a
  | _ => None
  end.

(** The parts of the complete expression: leading flag, date expression,
    trailing flag; the text group and the end of input follow. *)
Definition flag1Part : regex :=
  Eval vm_compute in
    match ast compiledExpression with
    | Seq Bol (Seq (Rep _ _ a) _) => a
    | _ => Eps
    end.

Definition datePart : regex :=
  Eval vm_compute in
    match ast compiledExpression with
    | Seq Bol (Seq _ (Seq (Rep _ _ a) _)) => a
    | _ => Eps
    end.

Definition flag2Part : regex :=
  Eval vm_compute in
    match ast compiledExpression with
    | Seq Bol (Seq _ (Seq _ (Seq (Rep _ _ a) _))) => a
    | _ => Eps
    end.

Definition textPart : regex := Rep 0 None (Cls Dot).

(** A run of decimal digits of a length between [lo] and [hi]. *)
Definition digitRun (lo hi : nat) (w : jsstring) : Prop :=
  forallb is_decimal_digit w = true /\ (lo <= List.length w <= hi)%nat.

Definition flagWords : list string := ["task"; "todo"]%string.
Definition shortcutWords : list string :=
  ["today"; "tod"; "yesterday"; "yes"; "tomorrow"; "tom"; "0"]%string.
Definition modifierWords : list string := ["next"; "last"; "n"; "l"]%string.
Definition weekdayWords : list string :=
  ["monday"; "tuesday"; "wednesday"; "thursday"; "friday"; "saturday";
   "sunday"; "mon"; "tue"; "wed"; "thu"; "fri"; "sat"; "sun"; "montag";
   "dienstag"; "mittwoch"; "donnerstag"; "freitag"; "samstag"; "sonntag"]%string.

(** What each capture slot of the complete expression can hold when it
    holds a string. *)
Definition slotShape (n : nat) (w : jsstring) : Prop :=
  match n with
  | 1 | 7 => In w (List.map str flagWords)
  | 2 => In w (List.map str shortcutWords)
  | 3 => exists sign ds,
           w = sign :: ds /\ (sign = chr "+" \/ sign = chr "-") /\
           ds <> [] /\ forallb is_decimal_digit ds = true
  | 4 => (exists y m d, w = y ++ chr "-" :: m ++ chr "-" :: d /\
                        digitRun 4 4 y /\ digitRun 1 2 m /\ digitRun 1 2 d)
         \/ (exists m d, w = m ++ chr "-" :: d /\
                         digitRun 1 2 m /\ digitRun 1 2 d)
         \/ digitRun 1 2 w
  | 5 => In w (List.map str modifierWords)
  | 6 => In w (List.map str weekdayWords)
  | 8 => Forall (fun c => is_line_terminator c = false) w
  | _ => True
  end.

(** A slot is absent or holds a string of its shape. *)
Definition slot_ok (n : nat) (v : value) : Prop :=
  match v with
  | JUndefined => True
  | JNull => False
  | JString w => slotShape n w
  end.

End GrammarVocabulary.

Definition single_line (s : jsstring) : Prop :=
  Forall (fun c => is_line_terminator c = false) s.

Definition isEmpty (s : jsstring) : bool :=
  match s with [] => true | _ :: _ => false end.

(** The flag the two flag slots give: the leading one when it holds a
    string, else the trailing one, else none. *)
Definition flagOf (arr : list value) : jsstring :=
  match nth 1 arr JUndefined with
  | JString f => f
  | _ => string_of (nth 7 arr JUndefined)
  end.

(** The outcome of [parseInput] read off the slots of a match. *)
Definition assembled (arr : list value) : option outcome :=
  match nth 2 arr JUndefined with
  | JString word =>
      let flag := flagOf arr in
      let memo := string_of (nth 8 arr JUndefined) in
      if (negb (isEmpty flag) && isEmpty memo)%bool then noText
      else
        Some (Resolved
                {| flags := if (isEmpty flag && (6 <? Z.of_nat (List.length memo)))%bool
                            then str "memo" else flag;
                   offset := resolveShortcutString word;
                   text := JString memo;
                   scope := str "default" |})
  | _ => faulted TypeError
  end.

(** A reference date with a year of at most four digits. *)
Definition saneDate (d : Date) : Prop :=
  0 <= getFullYear d <= 9999 /\ 0 <= getMonth d <= 11 /\ 1 <= getDate d <= 31.

(** The offset of each shortcut word of the grammar. *)
Definition shortcutOffsets : list (string * Z) :=
  [("today", 0); ("tod", 0); ("yesterday", -1); ("yes", -1);
   ("tomorrow", 1); ("tom", 1); ("0", 0)]%string.

Definition sampleLine : jsstring := str "task today buy milk".

Definition sampleSlots : list value :=
  [JString (str "task today buy milk"); JString (str "task");
   JString (str "today"); JUndefined; JUndefined; JUndefined; JUndefined;
   JUndefined; JString (str "buy milk")].

Definition sampleInput : Input :=
  {| flags := str "task"; offset := Num 0;
     text := JString (str "buy milk"); scope := str "default" |}.


Definition calendarSlots : list value :=
  [JString (str "2024-02-20 dentist"); JUndefined; JUndefined; JUndefined;
   JString (str "2024-02-20"); JUndefined; JUndefined; JUndefined;
   JString (str "dentist")].

(** * Properties *)

Import JS RegExp Model Util Parser.

(** ** Capture slots are strings or [undefined] *)

Lemma set_nth_defined (n : nat) (v : value) (l : list value) :
  v <> JNull -> defined_or_absent l -> defined_or_absent (set_nth n v l).
Proof.
  unfold defined_or_absent. intros Hv Hl. revert n.
  induction Hl as [|x l Hx Hl IH]; intros [|n]; simpl; constructor; auto.
Qed.

Lemma clear_caps_defined (gs : list nat) (x : mstate) :
  defined_or_absent (caps x) -> defined_or_absent (caps (clear_caps gs x)).
Proof.
  unfold clear_caps. revert x.
  induction gs as [|g gs IH]; intros x Hx; simpl; auto.
  apply IH. simpl. apply set_nth_defined; [discriminate | exact Hx].
Qed.

Lemma one_char_sound (ok : N -> bool) : sound (one_char ok).
Proof.
  intros x k z H Hx. unfold one_char in H.
  destruct (rest x) as [|c t]; [discriminate|].
  destruct (ok c); [|discriminate].
  eexists. split; [|exact H]. exact Hx.
Qed.

Lemma RepeatMatcher_sound (m : matcher) (gs : list nat) :
  sound m -> forall fuel lo hi, sound (fun x k => RepeatMatcher m gs fuel lo hi x k).
Proof.
  intros Hm fuel.
  induction fuel as [|f IH]; intros lo hi x k z H Hx; simpl in H.
  - discriminate.
  - assert (Hstep :
        m (clear_caps gs x)
          (fun y => if (Nat.eqb lo 0 && Nat.eqb (pos y) (pos x))%bool then None
                    else RepeatMatcher m gs f (Nat.pred lo) (option_map Nat.pred hi) y k)
        = Some z ->
        exists y, defined_or_absent (caps y) /\ k y = Some z).
    { intros Hs.
      destruct (Hm _ _ _ Hs (clear_caps_defined _ _ Hx)) as (y & Hy & Hk).
      destruct (Nat.eqb lo 0 && Nat.eqb (pos y) (pos x))%bool; [discriminate|].
      exact (IH _ _ _ _ _ Hk Hy). }
    destruct hi as [[|h]|].
    + exists x. split; assumption.
    + destruct (Nat.eqb lo 0); [|exact (Hstep H)].
      match type of H with match ?a with _ => _ end = _ => destruct a eqn:E end.
      * injection H as <-. exact (Hstep eq_refl).
      * exists x. split; assumption.
    + destruct (Nat.eqb lo 0); [|exact (Hstep H)].
      match type of H with match ?a with _ => _ end = _ => destruct a eqn:E end.
      * injection H as <-. exact (Hstep eq_refl).
      * exists x. split; assumption.
Qed.

Lemma compile_sound (r : regex) : sound (compile r).
Proof.
  induction r as [| c | cl | | | a IHa b IHb | a IHa b IHb | n a IHa | lo hi a IHa];
    cbn [compile].
  - intros x k z H Hx. exists x. split; assumption.
  - apply one_char_sound.
  - apply one_char_sound.
  - intros x k z H Hx. destruct (Nat.eqb (pos x) 0); [|discriminate].
    exists x. split; assumption.
  - intros x k z H Hx. destruct (rest x); [|discriminate].
    exists x. split; assumption.
  - intros x k z H Hx.
    destruct (IHa _ _ _ H Hx) as (y & Hy & H').
    exact (IHb _ _ _ H' Hy).
  - intros x k z H Hx.
    destruct (compile a x k) eqn:E.
    + injection H as <-. exact (IHa _ _ _ E Hx).
    + exact (IHb _ _ _ H Hx).
  - intros x k z H Hx.
    destruct (IHa _ _ _ H Hx) as (y & Hy & H').
    eexists. split; [|exact H'].
    simpl. apply set_nth_defined; [discriminate | exact Hy].
  - intros x k z H Hx.
    exact (RepeatMatcher_sound _ _ IHa _ _ _ _ _ _ H Hx).
Qed.

Lemma repeat_defined (n : nat) : defined_or_absent (repeat JUndefined n).
Proof. induction n; simpl; constructor; [discriminate | assumption]. Qed.

Lemma match_at_defined (re : RegExp) (input : jsstring) (p : nat) (arr : list value) :
  match_at re input p = Some arr -> defined_or_absent arr.
Proof.
  unfold match_at. intros H.
  destruct (compile _ _ _) as [y|] eqn:E; [|discriminate].
  injection H as <-.
  destruct (compile_sound _ _ _ _ E (repeat_defined _)) as (y' & Hy & E').
  injection E' as ->.
  constructor; [discriminate|].
  destruct (caps y); simpl; [constructor|]. inversion Hy; assumption.
Qed.

Lemma String_match_defined (s : jsstring) (re : RegExp) (arr : list value) :
  String_match s re = Some arr -> defined_or_absent arr.
Proof.
  unfold String_match, exec. generalize 0%nat.
  induction s as [|c s IH]; intros p H; simpl in H.
  - destruct (match_at re [] p) eqn:E; [|discriminate].
    injection H as <-. exact (match_at_defined _ _ _ _ E).
  - destruct (match_at re (c :: s) p) eqn:E.
    + injection H as <-. exact (match_at_defined _ _ _ _ E).
    + exact (IH _ H).
Qed.

Lemma slot_defined (arr : list value) (i : nat) :
  defined_or_absent arr -> nth i arr JUndefined <> JNull.
Proof.
  intros H. revert i. induction H; intros [|i]; simpl; try discriminate; auto.
Qed.

(** ** Quantifiers never run out of fuel *)

Lemma ahead_refl (x : mstate) : ahead x x.
Proof. unfold ahead. lia. Qed.

Lemma ahead_trans (x y z : mstate) : ahead x y -> ahead y z -> ahead x z.
Proof. unfold ahead. lia. Qed.

Lemma clear_caps_place (gs : list nat) (x : mstate) :
  pos (clear_caps gs x) = pos x /\ rest (clear_caps gs x) = rest x.
Proof.
  unfold clear_caps. revert x.
  induction gs as [|g gs IH]; intros x; simpl; [split; reflexivity|].
  destruct (IH (set_cap g JUndefined x)) as [-> ->]. split; reflexivity.
Qed.

Lemma one_char_local (ok : N -> bool) : local (one_char ok).
Proof.
  intros x k k' H. unfold one_char.
  destruct (rest x) as [|c t] eqn:E; [reflexivity|].
  destruct (ok c); [|reflexivity].
  apply H. unfold ahead. simpl. rewrite E. simpl. lia.
Qed.

(** Any two amounts of fuel above [lo] plus the length of the input give
    the same result: the quantifier never runs out of fuel. *)
Lemma RepeatMatcher_fuel (m : matcher) (gs : list nat) :
  local m ->
  forall f f' lo hi x k k',
    (lo + List.length (rest x) < f)%nat ->
    (lo + List.length (rest x) < f')%nat ->
    (forall y, ahead x y -> k y = k' y) ->
    RepeatMatcher m gs f lo hi x k = RepeatMatcher m gs f' lo hi x k'.
Proof.
  intros Hm f.
  induction f as [|f IH]; intros f' lo hi x k k' Hf Hf' Hk; [lia|].
  destruct f' as [|f']; [lia|].
  cbn [RepeatMatcher].
  assert (Hstep :
    m (clear_caps gs x)
      (fun y => if (Nat.eqb lo 0 && Nat.eqb (pos y) (pos x))%bool then None
                else RepeatMatcher m gs f (Nat.pred lo) (option_map Nat.pred hi) y k)
    = m (clear_caps gs x)
      (fun y => if (Nat.eqb lo 0 && Nat.eqb (pos y) (pos x))%bool then None
                else RepeatMatcher m gs f' (Nat.pred lo) (option_map Nat.pred hi) y k')).
  { apply Hm. intros y Hy.
    destruct (clear_caps_place gs x) as [Hp Hr].
    unfold ahead in Hy. rewrite Hp, Hr in Hy.
    destruct (Nat.eqb lo 0) eqn:Elo; cbn [andb].
    - apply Nat.eqb_eq in Elo. subst lo.
      destruct (Nat.eqb (pos y) (pos x)) eqn:Ep; [reflexivity|].
      apply Nat.eqb_neq in Ep.
      apply IH; [simpl; lia | simpl; lia |].
      intros z Hz. apply Hk. unfold ahead in *. lia.
    - apply Nat.eqb_neq in Elo.
      apply IH; [lia | lia |].
      intros z Hz. apply Hk. unfold ahead in *. lia. }
  destruct hi as [[|h]|].
  - apply Hk, ahead_refl.
  - rewrite Hstep, (Hk x (ahead_refl x)). reflexivity.
  - rewrite Hstep, (Hk x (ahead_refl x)). reflexivity.
Qed.

Lemma compile_local (r : regex) : local (compile r).
Proof.
  induction r as [| c | cl | | | a IHa b IHb | a IHa b IHb | n a IHa | lo hi a IHa];
    cbn [compile].
  - intros x k k' H. apply H, ahead_refl.
  - apply one_char_local.
  - apply one_char_local.
  - intros x k k' H. rewrite (H x (ahead_refl x)). reflexivity.
  - intros x k k' H. rewrite (H x (ahead_refl x)). reflexivity.
  - intros x k k' H. apply IHa. intros y Hy. apply IHb. intros z Hz.
    apply H. exact (ahead_trans _ _ _ Hy Hz).
  - intros x k k' H. rewrite (IHa x k k' H), (IHb x k k' H). reflexivity.
  - intros x k k' H. apply IHa. intros y Hy. apply H. exact Hy.
  - intros x k k' H. apply RepeatMatcher_fuel; [exact IHa | lia | lia | exact H].
Qed.

(** The fuel [compile] gives a quantifier is enough: more fuel changes
    nothing. *)
Lemma quantifier_fuel_enough (a : regex) (lo : nat) (hi : option nat)
    (x : mstate) (k : mstate -> option mstate) (extra : nat) :
  compile (Rep lo hi a) x k =
  RepeatMatcher (compile a) (groups a)
    (S (lo + List.length (rest x)) + extra) lo hi x k.
Proof.
  cbn [compile].
  apply RepeatMatcher_fuel; [apply compile_local | lia | lia | reflexivity].
Qed.

(** ** The expression and the parser instance *)

Lemma compiledExpression_eq :
  RegExp_new completeExpression = Normal compiledExpression.
Proof. vm_compute. reflexivity. Qed.

(** The three literals of [resolveShortcutString] are well-formed
    patterns. *)
Lemma shortcut_literals_compile :
  Forall (fun pattern => RegExp_new (str pattern) = Normal (literal pattern))
         ["today|tod|heute|0"; "tomorrow|tom|morgen"; "yesterday|yes|gestern"]%string.
Proof. repeat constructor. Qed.

Lemma new_Parser_cache_ok (now : Date) : cache_ok (new_Parser now).
Proof. intros re H. discriminate H. Qed.

Ltac run_executor :=
  unfold parseInput, executor, abind, try_catch, when, set_today,
    getExpression, get_this, lift, receiver, ret, resolve, reject, settle;
  cbn [isNullOrUndefined this settled today expr fst snd].

Ltac split_cases :=
  repeat (match goal with
          | |- context [match ?c with Normal _ => _ | Throw _ => _ end] =>
              destruct c
          | |- context [if ?b then _ else _] => destruct b
          end; cbn [this settled today expr fst snd]).

Section Calls.
Context {U : DayNames}.

(** The instance a call leaves behind: the reference date is the one of
    the call, and the expression is cached once a string has been parsed. *)
Lemma parseInput_instance (self : Parser) (now : Date) (v : value) :
  cache_ok self ->
  snd (parseInput self now v) =
  match v with
  | JString _ => {| today := now; expr := Some compiledExpression |}
  | _ => {| today := now; expr := expr self |}
  end.
Proof.
  intros Hc. destruct v as [| |s]; [reflexivity | reflexivity |].
  run_executor.
  destruct (expr self) as [re|] eqn:He.
  - apply Hc in He. rewrite compiledExpression_eq in He.
    injection He as <-.
    split_cases; reflexivity.
  - rewrite compiledExpression_eq.
    cbn [this settled today expr fst snd].
    split_cases; reflexivity.
Qed.

(** The outcome of a call does not depend on the instance it is made on. *)
Lemma parseInput_outcome (self : Parser) (now : Date) (v : value) :
  cache_ok self -> fst (parseInput self now v) = parse now v.
Proof.
  intros Hc. destruct v as [| |s]; [reflexivity | reflexivity |].
  unfold parse, new_Parser.
  run_executor.
  rewrite compiledExpression_eq.
  destruct (expr self) as [re|] eqn:He; [|reflexivity].
  apply Hc in He. rewrite compiledExpression_eq in He.
  injection He as <-. reflexivity.
Qed.

(** Every call settles its promise. *)
Lemma parse_settles (now : Date) (v : value) :
  exists o, parse now v = Some o.
Proof.
  unfold parse, new_Parser.
  destruct v as [| |s]; [eexists; reflexivity | eexists; reflexivity |].
  run_executor. rewrite compiledExpression_eq.
  cbn [this settled today expr fst snd].
  split_cases; eexists; reflexivity.
Qed.

Lemma parseInput_cache_ok (self : Parser) (now : Date) (v : value) :
  cache_ok self -> cache_ok (snd (parseInput self now v)).
Proof.
  intros Hc. rewrite (parseInput_instance _ _ _ Hc).
  destruct v; intros re H; cbn [expr] in H.
  - exact (Hc _ H).
  - exact (Hc _ H).
  - injection H as <-. exact compiledExpression_eq.
Qed.

End Calls.

(** ** Absent capture slots *)

Lemma extractFlags_total (arr : list value) :
  exists f, extractFlags (Some arr) = Normal f.
Proof.
  unfold extractFlags, item, bind.
  destruct (negb (isNullOrUndefined (nth 1 arr JUndefined))); eexists; reflexivity.
Qed.

Section Slots.
Context {U : DayNames}.

Lemma extractOffset_absent (self : Parser) (arr : list value) :
  nth 2 arr JUndefined = JUndefined ->
  extractOffset self (Some arr) = Throw TypeError.
Proof.
  intros H. unfold extractOffset, item, bind. rewrite H. reflexivity.
Qed.

Lemma parse_absent_shortcut (now : Date) (s : jsstring) (arr : list value) :
  String_match s compiledExpression = Some arr ->
  nth 2 arr JUndefined = JUndefined ->
  parse now (JString s) = faulted TypeError.
Proof.
  intros Hm H2. unfold parse, new_Parser. run_executor.
  rewrite compiledExpression_eq. cbn [this settled today expr fst snd].
  rewrite Hm. cbn [is_null this settled].
  destruct (extractFlags_total arr) as (f & ->).
  rewrite (extractOffset_absent _ _ H2). reflexivity.
Qed.

(** C3: for every string the grammar matches with the shortcut slot absent,
    the slot holds [undefined], which passes the strict comparison with
    [null]; reading its length then faults in [extractOffset], and
    [parseInput] rejects with that [TypeError] instead of resolving an
    [Input]. *)
Theorem absent_shortcut_slot_faults
    (self : Parser) (now : Date) (s : jsstring) (re : RegExp) (arr : list value) :
  cache_ok self ->
  RegExp_new completeExpression = Normal re ->
  String_match s re = Some arr ->
  (forall t, nth 2 arr JUndefined <> JString t) ->
  nth 2 arr JUndefined = JUndefined /\
  strict_neq_null (nth 2 arr JUndefined) = true /\
  (forall inst, extractOffset inst (Some arr) = Throw TypeError) /\
  fst (parseInput self now (JString s)) = faulted TypeError.
Proof.
  intros Hc Hre Hm Habs.
  rewrite compiledExpression_eq in Hre. injection Hre as <-.
  assert (H2 : nth 2 arr JUndefined = JUndefined).
  { pose proof (slot_defined arr 2 (String_match_defined _ _ _ Hm)) as Hn.
    destruct (nth 2 arr JUndefined) as [| |t]; [reflexivity | | ].
    - contradiction.
    - exfalso. exact (Habs t eq_refl). }
  split; [exact H2|]. split; [rewrite H2; reflexivity|].
  split; [intros inst; apply extractOffset_absent; exact H2|].
  rewrite (parseInput_outcome _ _ _ Hc).
  exact (parse_absent_shortcut _ _ _ Hm H2).
Qed.

(** A memo, a numeric offset, a calendar date and a weekday phrase: the
    shortcut slot is absent in each. *)
Example absent_shortcut_kinds (now : Date) :
  Forall (fun line => parse now (JString (str line)) = faulted TypeError)
         ["buy milk"; "-2 call home"; "2024-01-15"; "10-24 dentist";
          "next monday"; "last fri review"]%string.
Proof. repeat constructor. Qed.

End Slots.

Lemma absent_shortcut_slot_faults_witness :
  let arr := [JString (str "next monday"); JUndefined; JUndefined; JUndefined;
              JUndefined; JString (str "next"); JString (str "monday");
              JUndefined; JString (str "")] in
  nth 2 arr JUndefined = JUndefined /\
  strict_neq_null (nth 2 arr JUndefined) = true /\
  (forall inst, extractOffset (U := fromSpec) inst (Some arr) = Throw TypeError) /\
  fst (parseInput (U := fromSpec) (new_Parser sampleDate) sampleDate
         (JString (str "next monday"))) = faulted TypeError.
Proof.
  apply (absent_shortcut_slot_faults (U := fromSpec) (new_Parser sampleDate)
           sampleDate (str "next monday") compiledExpression).
  - intros re H. discriminate H.
  - vm_compute. reflexivity.
  - vm_compute. reflexivity.
  - intros t H. vm_compute in H. discriminate H.
Defined.

(** ** Relative weekdays *)

Section Weekday.
Context {U : DayNames}.

(** C5: for a reference day and a target weekday with indices in 0..6,
    [resolveWeekday] returns an offset in [1, 7] when the modifier begins
    with [n] and in [-7, -1] otherwise; when the target is the reference
    weekday it returns 7 and -7, so the offset is never 0. *)
Theorem resolveWeekday_range
    (self : Parser) (mod_ weekday : jsstring) (target : Z) :
  getDayOfWeekForString weekday = Num target ->
  0 <= target <= 6 ->
  0 <= getDay (today self) <= 6 ->
  exists d,
    resolveWeekday self mod_ weekday = Num d /\
    (if isNext mod_ then 1 <= d <= 7 else -7 <= d <= -1) /\
    (target = getDay (today self) -> d = if isNext mod_ then 7 else -7) /\
    d <> 0.
Proof.
  intros Hlook Ht Hc.
  unfold resolveWeekday. rewrite Hlook. fold (isNext mod_).
  cbn [num_sub num_lt num_ge num_le num_gt num_add].
  set (diff := target - getDay (today self)).
  assert (Hd : -6 <= diff <= 6) by (unfold diff; lia).
  assert (H0 : target = getDay (today self) -> diff = 0) by (unfold diff; lia).
  clearbody diff.
  destruct (isNext mod_); cbn [negb andb].
  - destruct (diff <=? 0) eqn:E.
    + apply Z.leb_le in E. exists (diff + 7). repeat split; lia.
    + apply Z.leb_gt in E.
      replace (0 <? diff) with true by (symmetry; apply Z.ltb_lt; lia).
      exists diff. repeat split; lia.
  - destruct (diff <? 0) eqn:E.
    + apply Z.ltb_lt in E. exists diff. repeat split; lia.
    + apply Z.ltb_ge in E.
      replace (0 <=? diff) with true by (symmetry; apply Z.leb_le; lia).
      exists (diff - 7). repeat split; lia.
Qed.

End Weekday.

Lemma resolveWeekday_range_witness :
  exists d,
    resolveWeekday (U := fromSpec) (new_Parser sampleDate) (str "next") (str "monday")
      = Num d /\
    (if isNext (str "next") then 1 <= d <= 7 else -7 <= d <= -1) /\
    (1 = getDay (today (new_Parser sampleDate)) ->
     d = if isNext (str "next") then 7 else -7) /\
    d <> 0.
Proof.
  apply (resolveWeekday_range (U := fromSpec) (new_Parser sampleDate)
           (str "next") (str "monday") 1).
  - reflexivity.
  - lia.
  - simpl. lia.
Defined.

(** The cases worked in the comments of [resolveWeekday]: the reference
    day is a Wednesday. *)
Example resolveWeekday_on_wednesday :
  let on := resolveWeekday (U := fromSpec) (new_Parser sampleDate) in
  on (str "last") (str "monday") = Num (-2) /\
  on (str "last") (str "friday") = Num (-5) /\
  on (str "next") (str "monday") = Num 5 /\
  on (str "next") (str "friday") = Num 2 /\
  on (str "next") (str "wednesday") = Num 7 /\
  on (str "l") (str "mittwoch") = Num (-7).
Proof. vm_compute. repeat split; reflexivity. Qed.

(** ** Calendar dates *)

(** C6 (amended): [resolveISOString] raises a hard error exactly when a
    month that is present lies outside [0, 12], or a day that is present
    lies outside [0, 31], or the token has neither year nor month and its
    day is 0 or not a number; a day of 31 next to a month in range is
    accepted whatever the length of that month. *)
Theorem resolveISOString_hard_error (self : Parser) (value : jsstring) :
  ((exists e, resolveISOString self value = Throw e) <->
   (rangeViolation value = true \/ noUsableDay value = true)) /\
  (forall year month,
     isoFields value = (year, Some (Num month), Some (Num 31)) ->
     0 <= month <= 12 ->
     exists n, resolveISOString self value = Normal n).
Proof.
  unfold resolveISOString, rangeViolation, noUsableDay.
  destruct (isoFields value) as [[year month] day].
  split.
  - destruct (outside month 0 12) eqn:Em; cbn [orb].
    { split; [intros _; left; reflexivity | intros _; eexists; reflexivity]. }
    destruct (outside day 0 31) eqn:Ed.
    { split; [intros _; left; reflexivity | intros _; eexists; reflexivity]. }
    destruct year as [y|]; [|destruct month as [m|]; [|destruct day as [d|]]];
      cbn [bind].
    + split; [intros [e H]; discriminate H | intros [H|H]; discriminate H].
    + split; [intros [e H]; discriminate H | intros [H|H]; discriminate H].
    + destruct (truthy d); cbn [bind negb].
      * split; [intros [e H]; discriminate H | intros [H|H]; discriminate H].
      * split; [intros _; right; reflexivity | intros _; eexists; reflexivity].
    + split; [intros _; right; reflexivity | intros _; eexists; reflexivity].
  - intros y m H Hm. injection H as -> -> ->.
    assert (Em : outside (Some (Num m)) 0 12 = false).
    { unfold outside, num_lt, num_gt, num_lt.
      apply orb_false_intro; [apply Z.ltb_ge | apply Z.ltb_ge]; lia. }
    rewrite Em. cbn [outside num_lt num_gt Z.ltb Z.compare orb Pos.compare Pos.compare_cont].
    destruct y; cbn [bind]; eexists; reflexivity.
Qed.

Lemma resolveISOString_hard_error_witness :
  exists n, resolveISOString (new_Parser sampleDate) (str "02-31") = Normal n.
Proof.
  apply (proj2 (resolveISOString_hard_error (new_Parser sampleDate) (str "02-31"))
           None 1).
  - reflexivity.
  - lia.
Defined.

(** C6 as stated fails: the token [0] violates neither range and is a hard
    error all the same. *)
Lemma resolveISOString_day_zero_counterexample :
  ~ (forall (self : Parser) (value : jsstring),
       (exists e, resolveISOString self value = Throw e) <->
       rangeViolation value = true).
Proof.
  intros H.
  destruct (H (new_Parser sampleDate) (str "0")) as [H1 _].
  assert (Hr : rangeViolation (str "0") = true).
  { apply H1. eexists. vm_compute. reflexivity. }
  vm_compute in Hr. discriminate Hr.
Qed.

(** February 31st of the reference year is accepted and lands in March;
    a month token of 13 is accepted too and lands in the next year. *)
Example resolveISOString_rolls_over :
  resolveISOString (new_Parser sampleDate) (str "02-31") = Normal (Num 17) /\
  resolveISOString (new_Parser sampleDate) (str "2024-02-31") = Normal (Num 17) /\
  resolveISOString (new_Parser sampleDate) (str "2024-13-01") = Normal (Num 322) /\
  resolveISOString (new_Parser sampleDate) (str "31") = Normal (Num 17) /\
  resolveISOString (new_Parser sampleDate) (str "32")
    = Throw (Error (str "Invalid value for day")) /\
  resolveISOString (new_Parser sampleDate) (str "14-01")
    = Throw (Error (str "Invalid value for month")) /\
  resolveISOString (new_Parser sampleDate) (str "0")
    = Throw (Error (str "Failed to parse the date")).
Proof. vm_compute. repeat split; reflexivity. Qed.

(** ** Numeric offsets *)

Lemma decimal_digit_cases (c : N) :
  is_decimal_digit c = true ->
  In c [48; 49; 50; 51; 52; 53; 54; 55; 56; 57]%N.
Proof.
  unfold is_decimal_digit. intros H.
  apply andb_prop in H. destruct H as [H1 H2].
  apply N.leb_le in H1. apply N.leb_le in H2.
  assert (Hc : (c = 48 \/ c = 49 \/ c = 50 \/ c = 51 \/ c = 52 \/ c = 53 \/
                c = 54 \/ c = 55 \/ c = 56 \/ c = 57)%N) by lia.
  simpl. intuition auto.
Qed.

Ltac each_digit c H :=
  apply decimal_digit_cases in H; simpl in H;
  repeat (destruct H as [H|H]; [subst c|]); [..|contradiction].

Lemma digit_not_space (c : N) :
  is_decimal_digit c = true -> is_white_space c = false.
Proof. intros H. each_digit c H; reflexivity. Qed.

Lemma digit_not_sign (c : N) :
  is_decimal_digit c = true ->
  N.eqb c (chr "-") = false /\ N.eqb c (chr "+") = false /\
  N.eqb c (chr "x") = false /\ N.eqb c (chr "X") = false.
Proof. intros H. each_digit c H; repeat split; reflexivity. Qed.

Lemma digit_value_decimal (c : N) :
  is_decimal_digit c = true ->
  digit_value c = Some (Z.of_N c - 48) /\ is_radix_digit 10 c = true.
Proof. intros H. each_digit c H; split; reflexivity. Qed.

Lemma take_digits_all (ds : jsstring) :
  forallb is_decimal_digit ds = true -> take_digits 10 ds = ds.
Proof.
  induction ds as [|c ds IH]; simpl; intros H; [reflexivity|].
  apply andb_prop in H. destruct H as [Hc Hds].
  destruct (digit_value_decimal c Hc) as [_ ->].
  rewrite (IH Hds). reflexivity.
Qed.

Lemma digits_to_Z_decimal (ds : jsstring) :
  forallb is_decimal_digit ds = true -> digits_to_Z 10 ds = decimal ds.
Proof.
  intros Hds. unfold digits_to_Z, decimal.
  assert (Hacc : forall acc,
    fold_left (fun a c =>
                 a * 10 + match digit_value c with Some d => d | None => 0 end)
              ds acc
    = fold_left (fun a c => 10 * a + (Z.of_N c - 48)) ds acc).
  { induction ds as [|c ds IH]; simpl; intros acc; [reflexivity|].
    simpl in Hds. apply andb_prop in Hds. destruct Hds as [Hc Hds].
    destruct (digit_value_decimal c Hc) as [-> _].
    rewrite (IH Hds). rewrite (Z.mul_comm acc 10). reflexivity. }
  apply Hacc.
Qed.

Lemma parseInt_digits (ds : jsstring) :
  ds <> [] -> forallb is_decimal_digit ds = true ->
  parseInt ds = Num (decimal ds).
Proof.
  intros Hne Hds.
  destruct ds as [|c ds]; [contradiction|].
  pose proof Hds as Hall.
  simpl in Hds. apply andb_prop in Hds. destruct Hds as [Hc Hrest].
  unfold parseInt. cbn [drop_white_space].
  rewrite (digit_not_space c Hc).
  destruct (digit_not_sign c Hc) as (-> & -> & _ & _).
  assert (Hval : match take_digits 10 (c :: ds) with
                 | [] => NaN
                 | n :: l => Num (1 * digits_to_Z 10 (n :: l))
                 end = Num (decimal (c :: ds))).
  { rewrite (take_digits_all _ Hall). rewrite (digits_to_Z_decimal _ Hall).
    f_equal. lia. }
  destruct ds as [|x t]; [exact Hval|].
  simpl in Hrest. apply andb_prop in Hrest. destruct Hrest as [Hx _].
  destruct (digit_not_sign x Hx) as (_ & _ & -> & ->).
  rewrite andb_false_r. exact Hval.
Qed.

(** C8 (amended): for a string of decimal digits, a leading [+] yields
    the number the digits denote and a leading [-] its negation; with no
    sign at all [resolveOffsetString] returns [NaN], without raising. *)
Theorem resolveOffsetString_signs (ds : jsstring) :
  ds <> [] ->
  forallb is_decimal_digit ds = true ->
  safe_integer (decimal ds) ->
  resolveOffsetString (chr "+" :: ds) = Num (decimal ds) /\
  resolveOffsetString (chr "-" :: ds) = Num (- decimal ds) /\
  resolveOffsetString ds = NaN.
Proof.
  intros Hne Hds _.
  unfold resolveOffsetString.
  repeat split.
  - cbn [startsWith substring1 tl]. rewrite N.eqb_refl.
    apply parseInt_digits; assumption.
  - cbn [startsWith substring1 tl].
    change (N.eqb (chr "-") (chr "+")) with false. rewrite N.eqb_refl.
    rewrite (parseInt_digits _ Hne Hds). cbn [num_mul]. f_equal. lia.
  - destruct ds as [|c ds]; [contradiction|].
    simpl in Hds. apply andb_prop in Hds. destruct Hds as [Hc _].
    cbn [startsWith].
    destruct (digit_not_sign c Hc) as (-> & -> & _ & _). reflexivity.
Qed.

Lemma resolveOffsetString_signs_witness :
  resolveOffsetString (str "+42") = Num 42 /\
  resolveOffsetString (str "-42") = Num (-42) /\
  resolveOffsetString (str "42") = NaN.
Proof.
  apply (resolveOffsetString_signs (str "42")).
  - discriminate.
  - reflexivity.
  - unfold safe_integer. vm_compute. discriminate.
Defined.

(** C8 as stated fails: the unsigned [5] is not read as 5. *)
Lemma resolveOffsetString_unsigned_counterexample :
  resolveOffsetString (str "5") <> Num 5.
Proof. vm_compute. discriminate. Qed.

(** ** Whole lines *)

Section Lines.
Context {U : DayNames}.

(** C1 (code defect): on [task buy milk] the grammar yields the flag [task]
    and the text [buy milk] with every date slot absent, and [parseInput]
    rejects with the [TypeError] of the absent shortcut slot instead of
    resolving with offset 0. *)
Theorem parseInput_task_buy_milk (self : Parser) (now : Date) :
  cache_ok self ->
  String_match (str "task buy milk") compiledExpression
    = Some ([JString (str "task buy milk"); JString (str "task")] ++ absent6
            ++ [JString (str "buy milk")]) /\
  extractFlags (String_match (str "task buy milk") compiledExpression)
    = Normal (str "task") /\
  extractText (String_match (str "task buy milk") compiledExpression)
    = Normal (JString (str "buy milk")) /\
  fst (parseInput self now (JString (str "task buy milk"))) = faulted TypeError.
Proof.
  intros Hc. rewrite (parseInput_outcome _ _ _ Hc).
  repeat split; vm_compute; reflexivity.
Qed.

(** C7 (code defect): on [+3 trip] the grammar yields the offset token
    [+3], which resolves to 3, and the text [trip], and [parseInput]
    rejects with the [TypeError] of the absent shortcut slot instead of
    resolving. *)
Theorem parseInput_plus3_trip (self : Parser) (now : Date) :
  cache_ok self ->
  String_match (str "+3 trip") compiledExpression
    = Some [JString (str "+3 trip"); JUndefined; JUndefined; JString (str "+3");
            JUndefined; JUndefined; JUndefined; JUndefined; JString (str "trip")] /\
  resolveOffsetString (str "+3") = Num 3 /\
  fst (parseInput self now (JString (str "+3 trip"))) = faulted TypeError.
Proof.
  intros Hc. rewrite (parseInput_outcome _ _ _ Hc).
  repeat split; vm_compute; reflexivity.
Qed.

(** C2 (amended): for [null] and [undefined], [parseInput] signals the
    cancellation outcome, the fault raised afterwards being swallowed by the
    settled promise; the empty string is matched by the grammar, with empty
    text and every other slot absent, and is not cancelled. *)
Theorem parseInput_null_cancels (self : Parser) (now : Date) :
  cache_ok self ->
  fst (parseInput self now JNull) = cancelled /\
  fst (parseInput self now JUndefined) = cancelled /\
  String_match (str "") compiledExpression
    = Some ([JString (str ""); JUndefined] ++ absent6 ++ [JString (str "")]) /\
  fst (parseInput self now (JString (str ""))) <> cancelled.
Proof.
  intros Hc. split; [reflexivity|]. split; [reflexivity|].
  rewrite (parseInput_outcome _ _ _ Hc).
  split; [vm_compute; reflexivity|].
  vm_compute. discriminate.
Qed.

(** C9 (amended): on [task] alone the grammar sees no flag, since a flag
    word must be followed by white space, and takes the word as text; the
    outcome is neither the validation failure nor the cancellation.  The
    validation failure is what a flag followed by a shortcut and no text
    gives, as in [task today]. *)
Theorem parseInput_task_alone (self : Parser) (now : Date) :
  cache_ok self ->
  String_match (str "task") compiledExpression
    = Some ([JString (str "task"); JUndefined] ++ absent6 ++ [JString (str "task")]) /\
  extractFlags (String_match (str "task") compiledExpression) = Normal (str "") /\
  fst (parseInput self now (JString (str "task"))) <> noText /\
  fst (parseInput self now (JString (str "task"))) <> cancelled /\
  fst (parseInput self now (JString (str "task today"))) = noText.
Proof.
  intros Hc. rewrite !(parseInput_outcome _ _ _ Hc).
  split; [vm_compute; reflexivity|].
  split; [vm_compute; reflexivity|].
  split; [vm_compute; discriminate|].
  split; [vm_compute; discriminate|].
  vm_compute; reflexivity.
Qed.

(** A line break is the one thing the grammar does not match: the result
    of [match] is [null], the call is cancelled, and the fault raised by
    reading a slot of [null] is swallowed. *)
Example parseInput_no_match_cancels (now : Date) :
  String_match (str "buy" ++ [10%N] ++ str "milk") compiledExpression = None /\
  parse now (JString (str "buy" ++ [10%N] ++ str "milk")) = cancelled.
Proof. split; vm_compute; reflexivity. Qed.

(** The words the grammar knows as shortcuts resolve as stated. *)
Lemma parseInput_shortcuts (self : Parser) (now : Date) (word : string) (n : Z) :
  cache_ok self ->
  In (word, n)
     [("today", 0); ("tod", 0); ("0", 0); ("tomorrow", 1); ("tom", 1);
      ("yesterday", -1); ("yes", -1)]%string ->
  fst (parseInput self now (JString (str word)))
  = Some (Resolved {| flags := str ""; offset := Num n;
                      text := JString (str ""); scope := str "default" |}).
Proof.
  intros Hc Hin. rewrite (parseInput_outcome _ _ _ Hc).
  simpl in Hin.
  repeat (destruct Hin as [Hin|Hin];
          [injection Hin as <- <-; vm_compute; reflexivity|]).
  contradiction.
Qed.

(** C4 (code defect): [resolveShortcutString] knows the German words, but
    the grammar does not list them among the shortcuts: given alone, each
    is captured as text with the shortcut slot absent, and [parseInput]
    rejects with a [TypeError] instead of resolving to the stated offset. *)
Theorem parseInput_german_shortcuts (self : Parser) (now : Date) (word : string) (n : Z) :
  cache_ok self ->
  In (word, n) [("heute", 0); ("morgen", 1); ("gestern", -1)]%string ->
  resolveShortcutString (str word) = Num n /\
  String_match (str word) compiledExpression
    = Some ([JString (str word); JUndefined] ++ absent6 ++ [JString (str word)]) /\
  fst (parseInput self now (JString (str word))) = faulted TypeError.
Proof.
  intros Hc Hin. rewrite (parseInput_outcome _ _ _ Hc).
  simpl in Hin.
  repeat (destruct Hin as [Hin|Hin];
          [injection Hin as <- <-; repeat split; vm_compute; reflexivity|]).
  contradiction.
Qed.

(** C10: two runs of [parseInput] on the same input against the same
    reference date settle with the same outcome, on the same instance or on
    another one: the outcome is a function of the input and the reference
    date. *)
Theorem parseInput_deterministic
    (self other : Parser) (now : Date) (v : value) :
  cache_ok self -> cache_ok other ->
  let first := parseInput self now v in
  let second := parseInput (snd first) now v in
  fst second = fst first /\
  fst (parseInput other now v) = fst first /\
  fst first = parse now v /\
  exists o, fst first = Some o.
Proof.
  intros Hs Ho first second. subst first second.
  rewrite (parseInput_outcome _ _ _ (parseInput_cache_ok _ _ _ Hs)).
  rewrite (parseInput_outcome _ _ _ Hs), (parseInput_outcome _ _ _ Ho).
  repeat split. apply parse_settles.
Qed.

End Lines.

(** ** The claims at the sample date *)

Lemma parseInput_task_buy_milk_witness :
  fst (parseInput (U := fromSpec) (new_Parser sampleDate) sampleDate
         (JString (str "task buy milk"))) = faulted TypeError.
Proof.
  apply (parseInput_task_buy_milk (U := fromSpec) (new_Parser sampleDate) sampleDate).
  intros re H. discriminate H.
Defined.

Lemma parseInput_plus3_trip_witness :
  fst (parseInput (U := fromSpec) (new_Parser sampleDate) sampleDate
         (JString (str "+3 trip"))) = faulted TypeError.
Proof.
  apply (parseInput_plus3_trip (U := fromSpec) (new_Parser sampleDate) sampleDate).
  intros re H. discriminate H.
Defined.

Lemma parseInput_null_cancels_witness :
  fst (parseInput (U := fromSpec) (new_Parser sampleDate) sampleDate JNull)
    = cancelled.
Proof.
  apply (parseInput_null_cancels (U := fromSpec) (new_Parser sampleDate) sampleDate).
  intros re H. discriminate H.
Defined.

(** C2 as stated fails: the empty string is not cancelled. *)
Lemma parseInput_empty_string_counterexample :
  fst (parseInput (U := fromSpec) (new_Parser sampleDate) sampleDate
         (JString (str ""))) <> cancelled.
Proof. vm_compute. discriminate. Qed.

Lemma parseInput_task_alone_witness :
  fst (parseInput (U := fromSpec) (new_Parser sampleDate) sampleDate
         (JString (str "task today"))) = noText.
Proof.
  apply (parseInput_task_alone (U := fromSpec) (new_Parser sampleDate) sampleDate).
  intros re H. discriminate H.
Defined.

(** C9 as stated fails: [task] alone is no validation failure. *)
Lemma parseInput_task_alone_counterexample :
  fst (parseInput (U := fromSpec) (new_Parser sampleDate) sampleDate
         (JString (str "task"))) <> noText.
Proof. vm_compute. discriminate. Qed.

Lemma parseInput_german_shortcuts_witness :
  fst (parseInput (U := fromSpec) (new_Parser sampleDate) sampleDate
         (JString (str "heute"))) = faulted TypeError.
Proof.
  apply (parseInput_german_shortcuts (U := fromSpec) (new_Parser sampleDate)
           sampleDate "heute" 0).
  - intros re H. discriminate H.
  - simpl. left. reflexivity.
Defined.

Lemma parseInput_deterministic_witness :
  let first := parseInput (U := fromSpec) (new_Parser sampleDate) sampleDate
                 (JString (str "tomorrow a long memo text")) in
  fst (parseInput (U := fromSpec) (snd first) sampleDate
         (JString (str "tomorrow a long memo text"))) = fst first.
Proof.
  apply (parseInput_deterministic (U := fromSpec) (new_Parser sampleDate)
           (new_Parser sampleDate) sampleDate
           (JString (str "tomorrow a long memo text"))).
  - intros re H. discriminate H.
  - intros re H. discriminate H.
Defined.

(** * Further properties *)

(** ** What the matcher consumes and captures *)

Section Grammar.
Local Open Scope nat_scope.

Lemma consumed_nil (x : mstate) : consumed x x [].
Proof. unfold consumed. simpl. repeat split; lia. Qed.

Lemma consumed_app (x y z : mstate) (u v : jsstring) :
  consumed x y u -> consumed y z v -> consumed x z (u ++ v).
Proof.
  unfold consumed. intros (H1 & H2 & H3) (H4 & H5 & H6).
  rewrite H1, H4, length_app, <- app_assoc. repeat split; lia.
Qed.

Lemma set_nth_length (n : nat) (v : value) (l : list value) :
  List.length (set_nth n v l) = List.length l.
Proof.
  revert n. induction l as [|a l IH]; intros [|n]; simpl; auto.
Qed.

Lemma nth_set_nth (n m : nat) (v : value) (l : list value) :
  nth m (set_nth n v l) JUndefined
  = if (Nat.eqb m n && Nat.ltb n (List.length l))%bool then v
    else nth m l JUndefined.
Proof.
  revert n m. induction l as [|a l IH]; intros [|n] [|m]; simpl; auto;
    try (rewrite andb_false_r; reflexivity).
Qed.

Lemma set_nth_slots_ok Q (n : nat) (v : value) (l : list value) :
  (forall w, v = JString w -> Q n w) ->
  slots_ok Q l -> slots_ok Q (set_nth n v l).
Proof.
  intros Hv Hl m w. rewrite nth_set_nth.
  destruct (Nat.eqb m n && Nat.ltb n (List.length l))%bool eqn:E.
  - apply andb_prop in E. destruct E as [E _]. apply Nat.eqb_eq in E. subst m.
    apply Hv.
  - apply Hl.
Qed.

Lemma clear_caps_slots_ok Q (gs : list nat) (x : mstate) :
  slots_ok Q (caps x) -> slots_ok Q (caps (clear_caps gs x)).
Proof.
  unfold clear_caps. revert x.
  induction gs as [|g gs IH]; intros x Hx; simpl; auto.
  apply IH. simpl. apply set_nth_slots_ok; [discriminate | exact Hx].
Qed.

Lemma clear_caps_length (gs : list nat) (x : mstate) :
  List.length (caps (clear_caps gs x)) = List.length (caps x).
Proof.
  unfold clear_caps. revert x.
  induction gs as [|g gs IH]; intros x; simpl; auto.
  rewrite IH. simpl. apply set_nth_length.
Qed.

Lemma one_char_tracks (ok : N -> bool) (r : regex) :
  captures_ok (fun _ _ => True) r ->
  (forall c, ok c = true -> accepts r [c]) ->
  forall Q x k z,
    slots_ok Q (caps x) -> one_char ok x k = Some z ->
    exists y w, k y = Some z /\ consumed x y w /\ accepts r w /\
                slots_ok Q (caps y).
Proof.
  intros _ Hacc Q x k z Hx H. unfold one_char in H.
  destruct (rest x) as [|c t] eqn:E; [discriminate|].
  destruct (ok c) eqn:Hc; [|discriminate].
  eexists. exists [c]. split; [exact H|].
  split; [|split; [apply Hacc; exact Hc | exact Hx]].
  unfold consumed. simpl. rewrite E. repeat split; lia.
Qed.

Lemma RepeatMatcher_tracks (a : regex) (m : matcher) (gs : list nat) :
  tracks a m ->
  forall fuel lo hi Q x k z,
    captures_ok Q a -> slots_ok Q (caps x) ->
    RepeatMatcher m gs fuel lo hi x k = Some z ->
    exists y w, k y = Some z /\ consumed x y w /\ accepts (Rep lo hi a) w /\
                slots_ok Q (caps y).
Proof.
  intros Hm fuel.
  induction fuel as [|f IH]; intros lo hi Q x k z HQ Hx H; [discriminate|].
  cbn [RepeatMatcher] in H.
  set (d := fun y : mstate =>
              if (Nat.eqb lo 0 && Nat.eqb (pos y) (pos x))%bool then None
              else RepeatMatcher m gs f (Nat.pred lo) (option_map Nat.pred hi) y k)
    in H.
  assert (Hstop : k x = Some z -> (lo = 0%nat \/ hi = Some 0%nat) ->
            exists y w, k y = Some z /\ consumed x y w /\
                        accepts (Rep lo hi a) w /\ slots_ok Q (caps y)).
  { intros Hk Hlo. exists x, []. split; [exact Hk|].
    split; [apply consumed_nil|]. split; [|exact Hx].
    exists []. simpl. split; [reflexivity|]. split; [constructor|].
    destruct hi as [h|]; destruct Hlo as [Hlo|Hlo]; try lia;
      try discriminate.
    injection Hlo as ->. lia. }
  assert (Hstep : hi <> Some 0%nat ->
            m (clear_caps gs x) d = Some z ->
            exists y w, k y = Some z /\ consumed x y w /\
                        accepts (Rep lo hi a) w /\ slots_ok Q (caps y)).
  { intros Hhi Hs.
    destruct (Hm Q _ _ _ HQ (clear_caps_slots_ok Q gs x Hx) Hs)
      as (y & u & Hk & Hc & Hu & Hy).
    unfold d in Hk.
    destruct (Nat.eqb lo 0 && Nat.eqb (pos y) (pos x))%bool; [discriminate|].
    destruct (IH _ _ _ _ _ _ HQ Hy Hk) as (y' & v & Hk' & Hc' & Hv & Hy').
    exists y', (u ++ v). split; [exact Hk'|].
    split.
    { destruct (clear_caps_place gs x) as [Hp Hr].
      pose proof (clear_caps_length gs x) as Hl.
      unfold consumed in Hc. rewrite Hp, Hr, Hl in Hc.
      apply (consumed_app x y y'); assumption. }
    split; [|exact Hy'].
    destruct Hv as (ws & -> & Hws & Hn).
    exists (u :: ws). simpl.
    split; [reflexivity|]. split; [constructor; assumption|].
    destruct hi as [[|h']|]; simpl in *; [congruence | lia | lia]. }
  clearbody d.
  destruct hi as [[|h]|].
  - apply Hstop; [exact H | right; reflexivity].
  - destruct (Nat.eqb lo 0) eqn:Elo.
    + apply Nat.eqb_eq in Elo.
      destruct (m (clear_caps gs x) d) as [z'|].
      * apply Hstep; [discriminate | exact H].
      * apply Hstop; [exact H | left; exact Elo].
    + apply Hstep; [discriminate | exact H].
  - destruct (Nat.eqb lo 0) eqn:Elo.
    + apply Nat.eqb_eq in Elo.
      destruct (m (clear_caps gs x) d) as [z'|].
      * apply Hstep; [discriminate | exact H].
      * apply Hstop; [exact H | left; exact Elo].
    + apply Hstep; [discriminate | exact H].
Qed.

Lemma compile_tracks (r : regex) : tracks r (compile r).
Proof.
  induction r as [| c | cl | | | a IHa b IHb | a IHa b IHb | n a IHa | lo hi a IHa];
    cbn [compile]; intros Q x k z HQ Hx H.
  - exists x, []. repeat split; [exact H | apply consumed_nil | exact Hx].
  - apply (one_char_tracks (N.eqb c) (Lit c) I) with (x := x); try assumption.
    intros d Hd. apply N.eqb_eq in Hd. subst d. reflexivity.
  - apply (one_char_tracks (class_matches cl) (Cls cl) I) with (x := x);
      try assumption.
    intros d Hd. exists d. split; [reflexivity | exact Hd].
  - destruct (Nat.eqb (pos x) 0); [|discriminate].
    exists x, []. repeat split; [exact H | apply consumed_nil | exact Hx].
  - destruct (rest x); [|discriminate].
    exists x, []. repeat split; [exact H | apply consumed_nil | exact Hx].
  - destruct HQ as [HQa HQb].
    destruct (IHa Q _ _ _ HQa Hx H) as (y & u & Hk & Hc & Hu & Hy).
    destruct (IHb Q _ _ _ HQb Hy Hk) as (y' & v & Hk' & Hc' & Hv & Hy').
    exists y', (u ++ v). split; [exact Hk'|].
    split; [exact (consumed_app _ _ _ _ _ Hc Hc')|].
    split; [|exact Hy']. exists u, v. repeat split; assumption.
  - destruct HQ as [HQa HQb].
    destruct (compile a x k) eqn:E.
    + injection H as <-.
      destruct (IHa Q _ _ _ HQa Hx E) as (y & u & Hk & Hc & Hu & Hy).
      exists y, u. repeat split; try assumption; try apply Hc. left; exact Hu.
    + destruct (IHb Q _ _ _ HQb Hx H) as (y & u & Hk & Hc & Hu & Hy).
      exists y, u. repeat split; try assumption; try apply Hc. right; exact Hu.
  - destruct HQ as [HQn HQa].
    destruct (IHa Q _ _ _ HQa Hx H) as (y & u & Hk & Hc & Hu & Hy).
    eexists. exists u. split; [exact Hk|].
    split; [|split; [exact Hu|]].
    + unfold consumed in *. simpl. rewrite set_nth_length. exact Hc.
    + simpl. apply set_nth_slots_ok; [|exact Hy].
      intros w Hw. injection Hw as <-.
      destruct Hc as (Hr & Hp & _). rewrite Hr, Hp.
      replace (pos x + List.length u - pos x)%nat with (List.length u) by lia.
      rewrite firstn_app, firstn_all, Nat.sub_diag. simpl.
      rewrite app_nil_r. apply HQn. exact Hu.
  - exact (RepeatMatcher_tracks a _ _ IHa _ _ _ _ _ _ _ HQ Hx H).
Qed.

Lemma expression_parts :
  ast compiledExpression =
  Seq Bol
    (Seq (Rep 0 (Some 1) flag1Part)
       (Seq (Rep 0 (Some 1) datePart)
          (Seq (Rep 0 (Some 1) flag2Part) (Seq (Cap 8 textPart) Eol)))) /\
  ngroups compiledExpression = 8%nat.
Proof. split; reflexivity. Qed.

Lemma finite_accepts (r : regex) :
  forall ws w, finite r = Some ws -> accepts r w -> In w ws.
Proof.
  induction r as [| c | cl | | | a IHa b IHb | a IHa b IHb | n a IHa | lo hi a IHa];
    simpl; intros ws w Hf Hw; try discriminate.
  - injection Hf as <-. left. symmetry. exact Hw.
  - injection Hf as <-. left. symmetry. exact Hw.
  - destruct (finite a) as [la|]; [|discriminate].
    destruct (finite b) as [lb|]; [|discriminate].
    injection Hf as <-. destruct Hw as (u & v & -> & Hu & Hv).
    apply in_flat_map. exists u. split; [exact (IHa _ _ eq_refl Hu)|].
    apply in_map. exact (IHb _ _ eq_refl Hv).
  - destruct (finite a) as [la|]; [|discriminate].
    destruct (finite b) as [lb|]; [|discriminate].
    injection Hf as <-. apply in_or_app.
    destruct Hw as [Hw|Hw]; [left; exact (IHa _ _ eq_refl Hw)
                            | right; exact (IHb _ _ eq_refl Hw)].
  - exact (IHa _ _ Hf Hw).
Qed.

Lemma accepts_class_run (k : cclass) (lo : nat) (hi : option nat) (w : jsstring) :
  accepts (Rep lo hi (Cls k)) w ->
  Forall (fun c => class_matches k c = true) w /\
  match hi with
  | Some h => (Nat.min lo h <= List.length w <= h)%nat
  | None => (lo <= List.length w)%nat
  end.
Proof.
  intros (ws & -> & Hws & Hn).
  assert (H : Forall (fun c => class_matches k c = true) (List.concat ws) /\
              List.length (List.concat ws) = List.length ws).
  { clear Hn. induction Hws as [|u ws (c & -> & Hc) _ [IH1 IH2]]; simpl.
    - split; [constructor | reflexivity].
    - split; [constructor; assumption | rewrite IH2; reflexivity]. }
  destruct H as [H1 H2]. rewrite H2. split; assumption.
Qed.

Lemma accepts_digit_run (lo hi : nat) (w : jsstring) :
  accepts (Rep lo (Some hi) (Cls Digit)) w -> (lo <= hi)%nat -> digitRun lo hi w.
Proof.
  intros H Hle. apply accepts_class_run in H. destruct H as [H1 H2].
  split; [|lia].
  apply forallb_forall. intros c Hc.
  rewrite Forall_forall in H1. exact (H1 c Hc).
Qed.

Ltac by_words ws :=
  let w := fresh "w" in
  let H := fresh "H" in
  intros w H; refine (finite_accepts _ (List.map str ws) w _ H); reflexivity.

Lemma flag1Part_captures : captures_ok slotShape flag1Part.
Proof.
  unfold flag1Part. cbn [captures_ok]. repeat split.
  by_words flagWords.
Qed.

Lemma flag2Part_captures : captures_ok slotShape flag2Part.
Proof.
  unfold flag2Part. cbn [captures_ok]. repeat split.
  by_words flagWords.
Qed.

Lemma datePart_captures : captures_ok slotShape datePart.
Proof.
  unfold datePart. cbn [captures_ok].
  repeat match goal with |- _ /\ _ => split end; try exact I.
  - by_words shortcutWords.
  - intros w (u & v & -> & Hu & Hv).
    apply accepts_class_run in Hv. destruct Hv as [Hd Hn].
    assert (Hs : exists sign, u = [sign] /\ (sign = chr "+" \/ sign = chr "-")).
    { destruct Hu as [->| ->]; eexists; split; try reflexivity; auto. }
    destruct Hs as (sign & -> & Hs).
    exists sign, v. split; [reflexivity|]. split; [exact Hs|].
    split; [destruct v; [simpl in Hn; lia | discriminate]|].
    apply forallb_forall. rewrite Forall_forall in Hd. exact Hd.
  - intros w H. cbn [slotShape].
    destruct H as [H|[H|H]].
    + left. destruct H as (y & r1 & -> & Hy & (s1 & r2 & -> & Hs1 & m & r3 & -> & Hm & s2 & d & -> & Hs2 & Hd)).
      cbn [accepts] in Hs1, Hs2. subst s1 s2.
      exists y, m, d. split; [reflexivity|].
      split; [|split]; apply accepts_digit_run; (assumption || lia).
    + right. left.
      destruct H as (m & r1 & -> & Hm & s1 & d & -> & Hs1 & Hd).
      cbn [accepts] in Hs1. subst s1.
      exists m, d. split; [reflexivity|].
      split; apply accepts_digit_run; (assumption || lia).
    + right. right. apply accepts_digit_run; [exact H | lia].
  - by_words modifierWords.
  - by_words weekdayWords.
Qed.

Lemma seq_step (a b : regex) Q (x : mstate) (k : mstate -> option mstate) (z : mstate) :
  captures_ok Q a -> slots_ok Q (caps x) ->
  compile (Seq a b) x k = Some z ->
  exists y w, compile b y k = Some z /\ consumed x y w /\ accepts a w /\
              slots_ok Q (caps y).
Proof. intros HQ Hx H. exact (compile_tracks a Q x _ z HQ Hx H). Qed.

(** The complete expression only matches at the start of the input. *)
Lemma expression_anchored (input : jsstring) (p : nat) :
  p <> 0%nat -> exec_from compiledExpression input p = None.
Proof.
  revert p. induction input as [|c t IH]; intros p Hp.
  - simpl. unfold match_at. rewrite (proj1 expression_parts).
    cbn [compile pos]. destruct p; [contradiction | reflexivity].
  - cbn [exec_from]. unfold match_at at 1. rewrite (proj1 expression_parts).
    cbn [compile pos]. destruct p; [contradiction|]. cbn [Nat.eqb].
    apply IH. discriminate.
Qed.

Lemma String_match_at (s : jsstring) :
  String_match s compiledExpression = match_at compiledExpression s 0.
Proof.
  unfold String_match, exec. destruct s as [|c t]; cbn [exec_from].
  - destruct (match_at compiledExpression [] 0); reflexivity.
  - destruct (match_at compiledExpression (c :: t) 0); [reflexivity|].
    apply expression_anchored. discriminate.
Qed.

Lemma initial_slots_ok Q (n : nat) : slots_ok Q (repeat JUndefined n).
Proof.
  intros m w H. exfalso. revert m H.
  induction n as [|n IH]; intros [|m] H; simpl in H; try discriminate.
  exact (IH m H).
Qed.

Lemma slot_ok_of (n : nat) (v : value) :
  v <> JNull -> (forall w, v = JString w -> slotShape n w) -> slot_ok n v.
Proof.
  intros Hn Hs. destruct v as [| |w]; simpl.
  - exact I.
  - apply Hn. reflexivity.
  - exact (Hs w eq_refl).
Qed.

(** The slots of a match of the complete expression. *)
Lemma match_slots (s : jsstring) (arr : list value) :
  String_match s compiledExpression = Some arr ->
  exists f1 sc off iso nl wd f2 pre text,
    arr = [JString s; f1; sc; off; iso; nl; wd; f2; JString text] /\
    slot_ok 1 f1 /\ slot_ok 2 sc /\ slot_ok 3 off /\ slot_ok 4 iso /\
    slot_ok 5 nl /\ slot_ok 6 wd /\ slot_ok 7 f2 /\
    s = pre ++ text /\
    Forall (fun c => is_line_terminator c = false) text.
Proof.
  intros Hm. pose proof (String_match_defined _ _ _ Hm) as Hdef.
  rewrite String_match_at in Hm. unfold match_at in Hm.
  destruct expression_parts as [Hast Hn]. rewrite Hast, Hn in Hm.
  match type of Hm with
  | match compile _ ?x _ with _ => _ end = _ => set (x0 := x) in Hm
  end.
  destruct (compile _ x0 Some) as [z|] eqn:E; [|discriminate].
  injection Hm as <-.
  assert (H0 : slots_ok slotShape (caps x0)) by apply initial_slots_ok.
  destruct (seq_step Bol _ slotShape _ _ _ I H0 E) as (y1 & w1 & E1 & C1 & A1 & H1).
  destruct (seq_step (Rep 0 (Some 1) flag1Part) _ slotShape _ _ _ flag1Part_captures H1 E1)
    as (y2 & w2 & E2 & C2 & A2 & H2).
  destruct (seq_step (Rep 0 (Some 1) datePart) _ slotShape _ _ _ datePart_captures H2 E2)
    as (y3 & w3 & E3 & C3 & A3 & H3).
  destruct (seq_step (Rep 0 (Some 1) flag2Part) _ slotShape _ _ _ flag2Part_captures H3 E3)
    as (y4 & w4 & E4 & C4 & A4 & H4).
  change (compile (Seq (Cap 8 textPart) Eol) y4 Some)
    with (compile textPart y4
            (fun y => compile Eol
                        (set_cap 8 (JString (firstn (pos y - pos y4) (rest y4))) y)
                        Some)) in E4.
  destruct (compile_tracks textPart slotShape _ _ _ I H4 E4)
    as (y5 & w5 & E5 & C5 & A5 & H5).
  cbn [compile set_cap rest] in E5.
  destruct (rest y5) as [|c t] eqn:R5; [|discriminate].
  injection E5 as <-.
  cbn [accepts] in A1. subst w1.
  pose proof (consumed_app _ _ _ _ _ C1 C2) as C12.
  pose proof (consumed_app _ _ _ _ _ C12 C3) as C13.
  pose proof (consumed_app _ _ _ _ _ C13 C4) as C14.
  destruct C5 as (Hr5 & Hp5 & Hl5).
  destruct C14 as (Hr4 & Hp4 & Hl4).
  rewrite R5, app_nil_r in Hr5.
  cbn [rest pos caps x0] in Hr4, Hp4, Hl4.
  set (pre := (([] ++ w2) ++ w3) ++ w4) in *.
  assert (Hs : s = pre ++ w5) by (rewrite Hr4, Hr5; reflexivity).
  cbn [pos caps set_cap].
  rewrite Hp5, Hr5.
  replace (pos y4 + List.length w5 - pos y4)%nat with (List.length w5) by lia.
  rewrite firstn_all.
  replace (firstn (pos y4 + List.length w5 - 0) s) with s.
  2:{ symmetry. apply firstn_all2. rewrite Hs at 1. rewrite length_app. lia. }
  rewrite Hl4 in Hl5. simpl in Hl5.
  destruct (caps y5) as [|c0 [|c1 [|c2 [|c3 [|c4 [|c5 [|c6 [|c7 [|c8 [|c9 l]]]]]]]]]] eqn:Ec;
    try discriminate Hl5.
  cbn [set_nth tl].
  cbn [caps set_cap] in Hdef. rewrite Ec in Hdef. cbn [set_nth tl] in Hdef.
  exists c1, c2, c3, c4, c5, c6, c7, pre, w5.
  split; [reflexivity|].
  assert (Hslot : forall n, (1 <= n <= 7)%nat ->
            slot_ok n (nth n [c0; c1; c2; c3; c4; c5; c6; c7; c8] JUndefined)).
  { intros n Hrange. apply slot_ok_of; [|apply H5].
    pose proof (slot_defined _ n Hdef) as Hd.
    do 8 (destruct n as [|n]; [try lia; exact Hd|]). lia. }
  split; [apply (Hslot 1%nat); lia|]. split; [apply (Hslot 2%nat); lia|].
  split; [apply (Hslot 3%nat); lia|]. split; [apply (Hslot 4%nat); lia|].
  split; [apply (Hslot 5%nat); lia|]. split; [apply (Hslot 6%nat); lia|].
  split; [apply (Hslot 7%nat); lia|].
  split.
  - exact Hs.
  - apply accepts_class_run in A5. destruct A5 as [A5 _].
    eapply Forall_impl; [|exact A5]. intros c Hc. simpl in Hc.
    apply negb_true_iff in Hc. exact Hc.
Qed.

(** X1: a match of the complete expression has nine slots: the whole input,
    then the two flag slots, the shortcut, numeric-offset, calendar, modifier
    and weekday slots, each absent or a string of its vocabulary or shape,
    and the text, which is always a string, is the rest of the input and
    holds no line terminator. *)
Theorem String_match_shape (s : jsstring) (arr : list value) :
  String_match s compiledExpression = Some arr ->
  exists f1 sc off iso nl wd f2 pre text,
    arr = [JString s; f1; sc; off; iso; nl; wd; f2; JString text] /\
    slot_ok 1 f1 /\ slot_ok 2 sc /\ slot_ok 3 off /\ slot_ok 4 iso /\
    slot_ok 5 nl /\ slot_ok 6 wd /\ slot_ok 7 f2 /\
    s = pre ++ text /\
    Forall (fun c => is_line_terminator c = false) text.
Proof. apply match_slots. Qed.

End Grammar.

(** ** Single lines always match *)

Lemma seq_exists (a b : regex) (x : mstate) (k : mstate -> option mstate) :
  (exists z, compile a x (fun y => compile b y k) = Some z) ->
  exists z, compile (Seq a b) x k = Some z.
Proof. intros H. exact H. Qed.

Lemma optional_skips (a : regex) (hi : option nat) (x : mstate)
    (k : mstate -> option mstate) :
  (exists z, k x = Some z) -> exists z, compile (Rep 0 hi a) x k = Some z.
Proof.
  intros [z Hz]. cbn [compile Nat.add RepeatMatcher].
  destruct hi as [[|h]|]; cbn [Nat.eqb andb].
  - exists z. exact Hz.
  - destruct (compile a _ _) as [z'|]; [exists z'; reflexivity | exists z; exact Hz].
  - destruct (compile a _ _) as [z'|]; [exists z'; reflexivity | exists z; exact Hz].
Qed.

Lemma dot_step (x : mstate) (c : N) (t : jsstring) (k : mstate -> option mstate) :
  rest x = c :: t -> is_line_terminator c = false ->
  compile (Cls Dot) x k = k {| rest := t; pos := S (pos x); caps := caps x |}.
Proof.
  intros Hr Hc. cbn [compile]. unfold one_char. rewrite Hr.
  cbn [class_matches]. rewrite Hc. reflexivity.
Qed.

Lemma dot_stop (x : mstate) (k : mstate -> option mstate) :
  rest x = [] -> compile (Cls Dot) x k = None.
Proof. intros Hr. cbn [compile]. unfold one_char. rewrite Hr. reflexivity. Qed.

Lemma dot_star_reaches_end (k : mstate -> option mstate) :
  (forall y, rest y = [] -> exists z, k y = Some z) ->
  forall t x fuel,
    rest x = t -> single_line t -> (List.length t < fuel)%nat ->
    exists z, RepeatMatcher (compile (Cls Dot)) [] fuel 0 None x k = Some z.
Proof.
  intros Hk t. induction t as [|c t IH]; intros x fuel Hr Hs Hf;
    (destruct fuel as [|f]; [simpl in Hf; lia|]);
    cbn [RepeatMatcher Nat.eqb andb clear_caps fold_left].
  - rewrite (dot_stop _ _ Hr). apply Hk. exact Hr.
  - inversion Hs as [|? ? Hc Ht]; subst.
    rewrite (dot_step _ _ _ _ Hr Hc). cbn [pos].
    replace (Nat.eqb (S (pos x)) (pos x)) with false
      by (symmetry; apply Nat.eqb_neq; lia).
    destruct (IH {| rest := t; pos := S (pos x); caps := caps x |} f eq_refl Ht)
      as [z Hz]; [simpl in Hf; lia|].
    cbn [Nat.pred option_map]. rewrite Hz. exists z. reflexivity.
Qed.

(** Every line without a line terminator is matched by the complete
    expression. *)
Lemma single_line_matches (s : jsstring) :
  single_line s -> exists arr, String_match s compiledExpression = Some arr.
Proof.
  intros Hs. rewrite String_match_at. unfold match_at.
  destruct expression_parts as [Hast Hn]. rewrite Hast, Hn.
  match goal with
  | |- exists _, match compile _ ?x _ with _ => _ end = _ => set (x0 := x)
  end.
  assert (H : exists z, compile
             (Seq Bol
               (Seq (Rep 0 (Some 1%nat) flag1Part)
                 (Seq (Rep 0 (Some 1%nat) datePart)
                   (Seq (Rep 0 (Some 1%nat) flag2Part) (Seq (Cap 8 textPart) Eol)))))
             x0 Some = Some z).
  { apply seq_exists. change (compile Bol x0) with (fun k : mstate -> option mstate => k x0).
    cbv beta.
    apply seq_exists, optional_skips.
    apply seq_exists, optional_skips.
    apply seq_exists, optional_skips.
    apply seq_exists.
    unfold textPart.
    change (compile (Cap 8 (Rep 0 None (Cls Dot))) x0
              (fun y => compile Eol y Some))
      with (RepeatMatcher (compile (Cls Dot)) []
              (S (0 + List.length (rest x0))) 0 None x0
              (fun y => compile Eol
                 (set_cap 8 (JString (firstn (pos y - pos x0) (rest x0))) y)
                 Some)).
    apply dot_star_reaches_end with (t := s); [|reflexivity|exact Hs|simpl; lia].
    intros y Hy. cbn [compile set_cap rest]. rewrite Hy. eexists. reflexivity. }
  destruct H as [z ->]. eexists. reflexivity.
Qed.

(** ** The outcome of [parseInput] read off the slots *)

Lemma shortcut_word_resolves (w : jsstring) :
  In w (List.map str shortcutWords) ->
  w <> [] /\
  (resolveShortcutString w = Num 0 \/ resolveShortcutString w = Num 1 \/
   resolveShortcutString w = Num (-1)).
Proof.
  intros H. simpl in H.
  repeat (destruct H as [<-|H];
          [split; [discriminate | vm_compute; auto]|]).
  contradiction.
Qed.

Section Assembly.
Context {U : DayNames}.

Lemma extractOffset_shortcut (self : Parser) (arr : list value) (w : jsstring) :
  nth 2 arr JUndefined = JString w -> w <> [] ->
  extractOffset self (Some arr) = Normal (resolveShortcutString w).
Proof.
  intros H Hw. unfold extractOffset, item, bind. rewrite H.
  cbn [strict_neq_null length_of string_of].
  destruct w as [|c w]; [contradiction|]. reflexivity.
Qed.

Lemma extractFlags_flagOf (arr : list value) :
  defined_or_absent arr -> extractFlags (Some arr) = Normal (flagOf arr).
Proof.
  intros Hd. unfold extractFlags, flagOf, item, bind.
  pose proof (slot_defined arr 1 Hd) as H1.
  pose proof (slot_defined arr 7 Hd) as H7.
  destruct (nth 1 arr JUndefined); [|contradiction|reflexivity].
  destruct (nth 7 arr JUndefined); [reflexivity|contradiction|reflexivity].
Qed.

Lemma parse_no_match (now : Date) (s : jsstring) :
  String_match s compiledExpression = None ->
  parse now (JString s) = cancelled.
Proof.
  intros Hm. unfold parse, new_Parser. run_executor.
  rewrite compiledExpression_eq. cbn [this settled today expr fst snd].
  rewrite Hm. reflexivity.
Qed.

Lemma parse_on_match (now : Date) (s : jsstring) (arr : list value) :
  String_match s compiledExpression = Some arr ->
  parse now (JString s) = assembled arr.
Proof.
  intros Hm.
  pose proof (String_match_defined _ _ _ Hm) as Hd.
  destruct (match_slots _ _ Hm)
    as (f1 & sc & off & iso & nl & wd & f2 & pre & memo & Harr & _ & Hsc & _).
  unfold assembled.
  destruct (nth 2 arr JUndefined) as [| |w] eqn:E2.
  - exact (parse_absent_shortcut now s arr Hm E2).
  - exfalso. exact (slot_defined arr 2 Hd E2).
  - assert (Hw : In w (List.map str shortcutWords)).
    { rewrite Harr in E2. cbn [nth] in E2. subst sc. exact Hsc. }
    destruct (shortcut_word_resolves w Hw) as [Hne Hres].
    unfold parse, new_Parser. run_executor.
    rewrite compiledExpression_eq. cbn [this settled today expr fst snd].
    rewrite Hm. cbn [is_null].
    rewrite (extractFlags_flagOf arr Hd).
    rewrite (extractOffset_shortcut _ arr w E2 Hne).
    unfold extractText, item, bind.
    assert (E8 : nth 8 arr JUndefined = JString memo)
      by (rewrite Harr; reflexivity).
    rewrite E8. cbn [strict_eq_null strict_neq_null negb string_of].
    generalize (flagOf arr). intros flag.
    assert (Ho : isNaN (resolveShortcutString w) = false)
      by (destruct Hres as [->|[->| ->]]; reflexivity).
    remember (resolveShortcutString w) as o eqn:Eo. clear Eo Hres.
    unfold hasFlags, hasMemo, hasOffset, set_flags, set_offset, extractScope.
    destruct flag as [|c flag]; destruct memo as [|d memo];
      cbn [negb andb isEmpty this settled fst snd Model.flags Model.text
           Model.offset Model.scope length_of].
    + rewrite Ho. reflexivity.
    + destruct (6 <? Z.of_nat (List.length (d :: memo)));
        cbn [Model.flags Model.text Model.offset Model.scope];
        rewrite Ho; reflexivity.
    + reflexivity.
    + rewrite Ho. reflexivity.
Qed.

End Assembly.

Section Outcomes.
Context {U : DayNames}.

Lemma parse_nullish (now : Date) (v : value) :
  isNullOrUndefined v = true -> parse now v = cancelled.
Proof. destruct v; [reflexivity | reflexivity | discriminate]. Qed.

Lemma assembled_not_cancelled (arr : list value) : assembled arr <> cancelled.
Proof.
  unfold assembled.
  destruct (nth 2 arr JUndefined); try discriminate.
  destruct (negb (isEmpty (flagOf arr)) && isEmpty (string_of (nth 8 arr JUndefined)))%bool;
    discriminate.
Qed.

(** X7: on a string the grammar matches, the outcome of [parseInput] is
    read off the slots: a fault when the shortcut slot is absent, the
    validation failure when a flag comes without text, and otherwise the
    input with the shortcut's offset, the text, and the captured flag,
    or [memo] when there is no flag and the text is longer than 6. *)
Theorem parseInput_on_match
    (self : Parser) (now : Date) (s : jsstring) (arr : list value) :
  cache_ok self ->
  String_match s compiledExpression = Some arr ->
  fst (parseInput self now (JString s)) = assembled arr.
Proof.
  intros Hc Hm. rewrite (parseInput_outcome _ _ _ Hc).
  exact (parse_on_match now s arr Hm).
Qed.

(** X8: [parseInput] signals the cancellation exactly when the input is
    [null] or [undefined], or is a string the grammar does not match. *)
Theorem parseInput_cancelled_iff (self : Parser) (now : Date) (v : value) :
  cache_ok self ->
  (fst (parseInput self now v) = cancelled <->
   isNullOrUndefined v = true \/
   exists s, v = JString s /\ String_match s compiledExpression = None).
Proof.
  intros Hc. rewrite (parseInput_outcome _ _ _ Hc). split.
  - intros H. destruct v as [| |s]; [left; reflexivity | left; reflexivity |].
    right. exists s. split; [reflexivity|].
    destruct (String_match s compiledExpression) as [arr|] eqn:Hm; [|reflexivity].
    rewrite (parse_on_match now s arr Hm) in H.
    exfalso. exact (assembled_not_cancelled arr H).
  - intros [H|(s & -> & Hm)].
    + exact (parse_nullish now v H).
    + exact (parse_no_match now s Hm).
Qed.

(** X2: every string without a line terminator is matched by the complete
    expression, so [parseInput] never cancels it: its outcome is the one
    read off the slots of the match. *)
Theorem parseInput_single_line_not_cancelled
    (self : Parser) (now : Date) (s : jsstring) :
  cache_ok self -> single_line s ->
  exists arr, String_match s compiledExpression = Some arr /\
              fst (parseInput self now (JString s)) = assembled arr /\
              fst (parseInput self now (JString s)) <> cancelled.
Proof.
  intros Hc Hs. destruct (single_line_matches s Hs) as [arr Hm].
  exists arr. rewrite (parseInput_outcome _ _ _ Hc), (parse_on_match now s arr Hm).
  repeat split; [exact Hm | apply assembled_not_cancelled].
Qed.

(** X11: the promise of [parseInput] settles in one of four ways: the
    cancellation, the validation failure, the [TypeError], or a resolved
    input. *)
Theorem parseInput_outcomes (self : Parser) (now : Date) (v : value) :
  cache_ok self ->
  fst (parseInput self now v) = cancelled \/
  fst (parseInput self now v) = noText \/
  fst (parseInput self now v) = faulted TypeError \/
  exists i, fst (parseInput self now v) = Some (Resolved i).
Proof.
  intros Hc. rewrite (parseInput_outcome _ _ _ Hc).
  destruct v as [| |s]; [left; reflexivity | left; reflexivity |].
  destruct (String_match s compiledExpression) as [arr|] eqn:Hm.
  - rewrite (parse_on_match now s arr Hm). unfold assembled.
    destruct (nth 2 arr JUndefined); [auto | auto |].
    destruct (negb (isEmpty (flagOf arr)) && isEmpty (string_of (nth 8 arr JUndefined)))%bool;
      [auto | right; right; right; eexists; reflexivity].
  - left. exact (parse_no_match now s Hm).
Qed.

(** X12: in an input [parseInput] resolves with, the text is a string, the
    rest of the line, without line terminator; the scope is [default]; the
    flags are empty, [task], [todo] or [memo]; the offset is 0, 1 or -1;
    flags come with a text that is not empty, and a text longer than 6
    comes with flags. *)
Theorem parseInput_resolved
    (self : Parser) (now : Date) (v : value) (i : Input) :
  cache_ok self ->
  fst (parseInput self now v) = Some (Resolved i) ->
  exists s pre memo,
    v = JString s /\ s = pre ++ memo /\ text i = JString memo /\
    single_line memo /\
    scope i = str "default" /\
    In (flags i) (List.map str [""; "task"; "todo"; "memo"]%string) /\
    (offset i = Num 0 \/ offset i = Num 1 \/ offset i = Num (-1)) /\
    (flags i <> [] -> memo <> []) /\
    (6 < Z.of_nat (List.length memo) -> flags i <> []).
Proof.
  intros Hc H. rewrite (parseInput_outcome _ _ _ Hc) in H.
  destruct v as [| |s]; [discriminate H | discriminate H |].
  destruct (String_match s compiledExpression) as [arr|] eqn:Hm;
    [|rewrite (parse_no_match now s Hm) in H; discriminate H].
  rewrite (parse_on_match now s arr Hm) in H.
  pose proof (String_match_defined _ _ _ Hm) as Hd.
  destruct (match_slots _ _ Hm)
    as (f1 & sc & off & iso & nl & wd & f2 & pre & memo & -> & Hf1 & Hsc & _ & _ & _ & _ & Hf2 & Hs & Hl).
  unfold assembled in H. cbn [nth string_of] in H.
  destruct sc as [| |w]; [discriminate H | discriminate H |].
  destruct (shortcut_word_resolves w Hsc) as [_ Hres].
  assert (Hflag : In (flagOf [JString s; f1; JString w; off; iso; nl; wd; f2; JString memo])
                     (List.map str [""; "task"; "todo"]%string)).
  { unfold flagOf. cbn [nth].
    destruct f1 as [| |f]; [|contradiction|right; exact Hf1].
    destruct f2 as [| |f]; [left; reflexivity|contradiction|right; exact Hf2]. }
  revert H Hflag. generalize (flagOf [JString s; f1; JString w; off; iso; nl; wd; f2; JString memo]).
  intros flag H Hflag.
  exists s, pre, memo.
  destruct (negb (isEmpty flag) && isEmpty memo)%bool eqn:Eb; [discriminate H|].
  injection H as <-. cbn [text scope flags offset].
  split; [reflexivity|]. split; [exact Hs|]. split; [reflexivity|].
  split; [exact Hl|]. split; [reflexivity|].
  split.
  { destruct (isEmpty flag && (6 <? Z.of_nat (List.length memo)))%bool.
    - right. right. right. left. reflexivity.
    - simpl in Hflag. simpl. intuition auto. }
  split; [exact Hres|].
  split.
  - intros Hne ->.
    destruct flag as [|c flag]; simpl in *; [|discriminate Eb].
    apply Hne. reflexivity.
  - intros Hlen.
    destruct flag as [|c flag]; cbn [isEmpty andb]; [|discriminate].
    replace (6 <? Z.of_nat (List.length memo)) with true
      by (symmetry; apply Z.ltb_lt; exact Hlen).
    discriminate.
Qed.

End Outcomes.

(** X13: the outcome of [parseInput] depends neither on the reference
    date nor on the weekday lookup. *)
Theorem parseInput_ignores_reference_date
    (U U' : DayNames) (self self' : Parser) (now now' : Date) (v : value) :
  cache_ok self -> cache_ok self' ->
  fst (parseInput (U := U) self now v) = fst (parseInput (U := U') self' now' v).
Proof.
  intros Hc Hc'.
  rewrite (parseInput_outcome (U := U) _ _ _ Hc).
  rewrite (parseInput_outcome (U := U') _ _ _ Hc').
  destruct v as [| |s]; [reflexivity | reflexivity |].
  destruct (String_match s compiledExpression) as [arr|] eqn:Hm.
  - rewrite (parse_on_match (U := U) now s arr Hm).
    rewrite (parse_on_match (U := U') now' s arr Hm). reflexivity.
  - rewrite (parse_no_match (U := U) now s Hm).
    rewrite (parse_no_match (U := U') now' s Hm). reflexivity.
Qed.

(** ** Where a relative weekday lands *)

Section Weekday2.
Context {U : DayNames}.


End Weekday2.

(** ** The expression cache *)

(** X17: [getExpression] never fails; it builds the expression on its
    first call, stores it in the instance, and from then on returns the
    stored expression and leaves the instance as it is. *)
Theorem getExpression_caches (w : world) :
  cache_ok (this w) ->
  exists w',
    getExpression w = (Normal compiledExpression, w') /\
    settled w' = settled w /\
    today (this w') = today (this w) /\
    expr (this w') = Some compiledExpression /\
    getExpression w' = (Normal compiledExpression, w').
Proof.
  intros Hc. unfold getExpression at 1.
  destruct (expr (this w)) as [re|] eqn:He.
  - apply Hc in He as Hre. rewrite compiledExpression_eq in Hre.
    injection Hre as <-.
    exists w. repeat split; try assumption.
    unfold getExpression. rewrite He. reflexivity.
  - rewrite compiledExpression_eq. eexists. repeat split.
Qed.

(** ** Calendar tokens against the reference date *)

Lemma DaysBeforeMonth_bounds (leap : bool) (mn : Z) :
  0 <= mn <= 11 -> 0 <= DaysBeforeMonth leap mn <= 335.
Proof.
  intros H.
  assert (Hc : mn = 0 \/ mn = 1 \/ mn = 2 \/ mn = 3 \/ mn = 4 \/ mn = 5 \/
               mn = 6 \/ mn = 7 \/ mn = 8 \/ mn = 9 \/ mn = 10 \/ mn = 11) by lia.
  destruct leap;
    repeat (destruct Hc as [->|Hc]; [vm_compute; split; discriminate|]);
    subst mn; vm_compute; split; discriminate.
Qed.

Lemma MakeDay_bound (y m d : Z) :
  0 <= y <= 9999 -> 0 <= m <= 12 -> -100 <= d <= 100 ->
  Z.abs (MakeDay y m d * msPerDay) <= 8640000000000000.
Proof.
  intros Hy Hm Hd. unfold MakeDay.
  pose proof (DaysBeforeMonth_bounds (InLeapYear (y + m / 12)) (m mod 12)
                ltac:(pose proof (Z.mod_pos_bound m 12 ltac:(lia)); lia)) as Hb.
  set (b := DaysBeforeMonth _ _) in *. clearbody b.
  assert (Hq : 0 <= m / 12 <= 1)
    by (split; [apply Z.div_pos; lia | apply Z.div_le_upper_bound; lia]).
  set (ym := y + m / 12) in *.
  assert (Hym : 0 <= ym <= 10000) by (unfold ym; lia).
  clearbody ym.
  unfold DayFromYear, msPerDay.
  pose proof (Z.div_mod (ym - 1969) 4 ltac:(lia)).
  pose proof (Z.mod_pos_bound (ym - 1969) 4 ltac:(lia)).
  pose proof (Z.div_mod (ym - 1901) 100 ltac:(lia)).
  pose proof (Z.mod_pos_bound (ym - 1901) 100 ltac:(lia)).
  pose proof (Z.div_mod (ym - 1601) 400 ltac:(lia)).
  pose proof (Z.mod_pos_bound (ym - 1601) 400 ltac:(lia)).
  lia.
Qed.

Lemma Date_UTC_same_month (y m d d' : Z) :
  0 <= y <= 9999 -> 0 <= m <= 11 -> -100 <= d <= 100 -> -100 <= d' <= 100 ->
  floor_div (num_sub (Date_UTC (Num y) (Num m) (Num d))
                     (Date_UTC (Num y) (Num m) (Num d'))) msPerDay
  = Num (d - d').
Proof.
  intros Hy Hm Hd Hd'. unfold Date_UTC.
  set (yr := if ((0 <=? y) && (y <=? 99))%bool then 1900 + y else y).
  assert (Hyr : 0 <= yr <= 9999).
  { unfold yr. destruct ((0 <=? y) && (y <=? 99))%bool eqn:E; [|lia].
    apply andb_prop in E. destruct E as [_ E]. apply Z.leb_le in E. lia. }
  clearbody yr.
  replace (Z.abs (MakeDay yr m d * msPerDay) <=? 8640000000000000) with true
    by (symmetry; apply Z.leb_le; apply MakeDay_bound; lia).
  replace (Z.abs (MakeDay yr m d' * msPerDay) <=? 8640000000000000) with true
    by (symmetry; apply Z.leb_le; apply MakeDay_bound; lia).
  cbn [num_sub floor_div]. f_equal.
  unfold MakeDay.
  replace (_ * msPerDay - _ * msPerDay) with ((d - d') * msPerDay) by ring.
  apply Z.div_mul. discriminate.
Qed.

(** X15: a calendar token whose year and month, where given, are those of
    the reference date, and whose day lies in 1..31, resolves to its day
    minus the reference day of the month. *)
Theorem resolveISOString_same_month
    (self : Parser) (value : jsstring) (yr mo : option number) (d : Z) :
  saneDate (today self) ->
  isoFields value = (yr, mo, Some (Num d)) ->
  (forall y, yr = Some y -> y = Num (getFullYear (today self))) ->
  (forall m, mo = Some m -> m = Num (getMonth (today self))) ->
  1 <= d <= 31 ->
  resolveISOString self value = Normal (Num (d - getDate (today self))).
Proof.
  intros (HY & HM & HD) Hf Hyr Hmo Hd.
  pose proof Hf as Hparts. unfold isoFields in Hparts.
  unfold resolveISOString. rewrite Hf.
  set (dt := split (chr "-") value) in *.
  assert (Eo1 : outside mo 0 12 = false).
  { destruct mo as [m|]; [|reflexivity].
    rewrite (Hmo m eq_refl). unfold outside, num_lt, num_gt, num_lt.
    apply orb_false_intro; apply Z.ltb_ge; lia. }
  assert (Eo2 : outside (Some (Num d)) 0 31 = false).
  { unfold outside, num_lt, num_gt, num_lt.
    apply orb_false_intro; apply Z.ltb_ge; lia. }
  rewrite Eo1, Eo2.
  destruct (3 <=? List.length dt)%nat.
  - injection Hparts as <- <- Hp2.
    rewrite (Hyr _ eq_refl), (Hmo _ eq_refl), Hp2. cbn [bind]. f_equal.
    apply Date_UTC_same_month; lia.
  - destruct (2 <=? List.length dt)%nat.
    + injection Hparts as <- <- Hp1.
      rewrite (Hmo _ eq_refl), Hp1. cbn [bind]. f_equal.
      apply Date_UTC_same_month; lia.
    + injection Hparts as <- <- Hp0. rewrite Hp0.
      replace (truthy (Num d)) with true
        by (symmetry; unfold truthy; apply negb_true_iff, Z.eqb_neq; lia).
      cbn [bind]. f_equal.
      apply Date_UTC_same_month; lia.
Qed.

Lemma split_prefix (sep : N) (ys md : jsstring) :
  ~ In sep ys -> split sep (ys ++ sep :: md) = ys :: split sep md.
Proof.
  induction ys as [|c ys IH]; intros Hn; simpl.
  - rewrite N.eqb_refl. reflexivity.
  - destruct (N.eqb c sep) eqn:E.
    + apply N.eqb_eq in E. exfalso. apply Hn. left. exact E.
    + rewrite IH; [reflexivity|]. intros H. apply Hn. right. exact H.
Qed.

(** X16: a month-day token stands for that month and day of the reference
    year: with the reference year written in front of it,
    [resolveISOString] gives the same offset, or the same error. *)
Theorem resolveISOString_reference_year
    (self : Parser) (ys md : jsstring) :
  ~ In (chr "-") ys ->
  List.length (split (chr "-") md) = 2%nat ->
  parseInt ys = Num (getFullYear (today self)) ->
  resolveISOString self (ys ++ chr "-" :: md) = resolveISOString self md.
Proof.
  intros Hys Hmd Hy.
  unfold resolveISOString, isoFields.
  rewrite (split_prefix _ _ _ Hys).
  destruct (split (chr "-") md) as [|a [|b [|c l]]]; try discriminate Hmd.
  cbn [List.length Nat.leb nth]. rewrite Hy.
  destruct (outside (Some (num_sub (parseInt a) (Num 1))) 0 12); [reflexivity|].
  destruct (outside (Some (parseInt b)) 0 31); reflexivity.
Qed.

(** ** What the resolvers make of captured tokens *)

Lemma decimal_digit_range (c : N) :
  is_decimal_digit c = true -> 0 <= Z.of_N c - 48 <= 9.
Proof.
  unfold is_decimal_digit. intros H. apply andb_prop in H.
  destruct H as [H1 H2]. apply N.leb_le in H1. apply N.leb_le in H2. lia.
Qed.

Lemma decimal_nonneg (ds : jsstring) :
  forallb is_decimal_digit ds = true -> 0 <= decimal ds.
Proof.
  unfold decimal. intros H.
  assert (Hacc : forall acc, 0 <= acc ->
            0 <= fold_left (fun a c => 10 * a + (Z.of_N c - 48)) ds acc).
  { induction ds as [|c ds IH]; cbn [fold_left]; intros acc Ha; [exact Ha|].
    cbn [forallb] in H. apply andb_prop in H. destruct H as [Hc Hds].
    apply (IH Hds). pose proof (decimal_digit_range c Hc). lia. }
  apply Hacc. lia.
Qed.

Lemma digitRun_decimal (lo hi : nat) (w : jsstring) :
  digitRun lo hi w -> (1 <= lo)%nat -> (hi <= 4)%nat ->
  w <> [] /\ ~ In (chr "-") w /\ 0 <= decimal w < 10 ^ Z.of_nat hi /\
  parseInt w = Num (decimal w).
Proof.
  intros [Hd Hn] Hlo Hhi.
  assert (Hne : w <> []) by (destruct w; [simpl in Hn; lia | discriminate]).
  split; [exact Hne|]. split.
  { intros Hin. rewrite forallb_forall in Hd. specialize (Hd _ Hin).
    vm_compute in Hd. discriminate Hd. }
  split; [|apply parseInt_digits; assumption].
  split; [apply decimal_nonneg; exact Hd|].
  assert (Hpow : 10 ^ Z.of_nat (List.length w) <= 10 ^ Z.of_nat hi)
    by (apply Z.pow_le_mono_r; lia).
  apply Z.lt_le_trans with (2 := Hpow).
  assert (Hlen : (List.length w <= 4)%nat) by lia.
  clear Hpow Hn Hne Hlo.
  destruct w as [|a [|b [|c [|d [|e l]]]]]; try (simpl in Hlen; lia);
    cbn [forallb] in Hd;
    repeat (apply andb_prop in Hd; destruct Hd as [?H Hd]);
    repeat match goal with
           | H : is_decimal_digit _ = true |- _ =>
               apply decimal_digit_range in H
           end;
    unfold decimal; cbn [fold_left List.length]; 
    change (10 ^ Z.of_nat 0) with 1; change (10 ^ Z.of_nat 1) with 10;
    change (10 ^ Z.of_nat 2) with 100; change (10 ^ Z.of_nat 3) with 1000;
    change (10 ^ Z.of_nat 4) with 10000; lia.
Qed.

Lemma split_none (sep : N) (w : jsstring) :
  ~ In sep w -> split sep w = [w].
Proof.
  induction w as [|c w IH]; intros Hn; simpl; [reflexivity|].
  destruct (N.eqb c sep) eqn:E.
  - apply N.eqb_eq in E. exfalso. apply Hn. left. exact E.
  - rewrite IH; [reflexivity|]. intros H. apply Hn. right. exact H.
Qed.


Lemma Date_UTC_defined (y m d : Z) :
  0 <= y <= 9999 -> 0 <= m <= 12 -> -100 <= d <= 100 ->
  exists t, Date_UTC (Num y) (Num m) (Num d) = Num t.
Proof.
  intros Hy Hm Hd. unfold Date_UTC.
  set (yr := if ((0 <=? y) && (y <=? 99))%bool then 1900 + y else y).
  assert (Hyr : 0 <= yr <= 9999).
  { unfold yr. destruct ((0 <=? y) && (y <=? 99))%bool eqn:E; [|lia].
    apply andb_prop in E. destruct E as [_ E]. apply Z.leb_le in E. lia. }
  clearbody yr.
  replace (Z.abs (MakeDay yr m d * msPerDay) <=? 8640000000000000) with true
    by (symmetry; apply Z.leb_le; apply MakeDay_bound; lia).
  eexists. reflexivity.
Qed.

Lemma outside_false (n lo hi : Z) :
  outside (Some (Num n)) lo hi = false -> lo <= n <= hi.
Proof.
  unfold outside, num_gt, num_lt. intros H.
  apply orb_false_elim in H. destruct H as [H1 H2].
  apply Z.ltb_ge in H1. apply Z.ltb_ge in H2. lia.
Qed.

Lemma offset_defined (a b : number) :
  (exists t, a = Num t) -> (exists t, b = Num t) ->
  exists n, Normal (floor_div (num_sub a b) msPerDay)
            = Normal (A := number) (Num n).
Proof. intros [t ->] [t' ->]. eexists. reflexivity. Qed.

(** X5: for every calendar token the grammar captures, and a reference
    date with a year of at most four digits, [resolveISOString] returns an
    integer or raises one of its errors; it never returns [NaN]. *)
Theorem captured_calendar_token_resolves
    (self : Parser) (s : jsstring) (arr : list value) (w : jsstring) :
  String_match s compiledExpression = Some arr ->
  nth 4 arr JUndefined = JString w ->
  saneDate (today self) ->
  (exists n, resolveISOString self w = Normal (Num n)) \/
  (exists e, resolveISOString self w = Throw e).
Proof.
  intros Hm H4 (HY & HM & HD).
  destruct (match_slots _ _ Hm)
    as (f1 & sc & off & iso & nl & wd & f2 & pre & memo & -> & _ & _ & _ & Hiso & _).
  cbn [nth] in H4. subst iso.
  assert (Htoday : exists t,
            Date_UTC (Num (getFullYear (today self))) (Num (getMonth (today self)))
                     (Num (getDate (today self))) = Num t)
    by (apply Date_UTC_defined; lia).
  unfold resolveISOString, isoFields.
  destruct Hiso as [(y & m & d & -> & Hy & Hmo & Hd)|[(m & d & -> & Hmo & Hd)|Hd]].
  - destruct (digitRun_decimal _ _ _ Hy ltac:(lia) ltac:(lia)) as (_ & Hyd & Hyb & Hyp).
    destruct (digitRun_decimal _ _ _ Hmo ltac:(lia) ltac:(lia)) as (_ & Hmd & Hmb & Hmp).
    destruct (digitRun_decimal _ _ _ Hd ltac:(lia) ltac:(lia)) as (_ & Hdd & Hdb & Hdp).
    rewrite (split_prefix _ _ _ Hyd), (split_prefix _ _ _ Hmd), (split_none _ _ Hdd).
    cbn [List.length Nat.leb nth]. rewrite Hyp, Hmp, Hdp. cbn [num_sub].
    destruct (outside (Some (Num (decimal m - 1))) 0 12) eqn:E1;
      [right; eexists; reflexivity|].
    destruct (outside (Some (Num (decimal d))) 0 31) eqn:E2;
      [right; eexists; reflexivity|].
    apply outside_false in E1. apply outside_false in E2.
    left. cbn [bind]. apply offset_defined; [|exact Htoday].
    apply Date_UTC_defined; change (10 ^ Z.of_nat 4) with 10000 in Hyb; lia.
  - destruct (digitRun_decimal _ _ _ Hmo ltac:(lia) ltac:(lia)) as (_ & Hmd & Hmb & Hmp).
    destruct (digitRun_decimal _ _ _ Hd ltac:(lia) ltac:(lia)) as (_ & Hdd & Hdb & Hdp).
    rewrite (split_prefix _ _ _ Hmd), (split_none _ _ Hdd).
    cbn [List.length Nat.leb nth]. rewrite Hmp, Hdp. cbn [num_sub].
    destruct (outside (Some (Num (decimal m - 1))) 0 12) eqn:E1;
      [right; eexists; reflexivity|].
    destruct (outside (Some (Num (decimal d))) 0 31) eqn:E2;
      [right; eexists; reflexivity|].
    apply outside_false in E1. apply outside_false in E2.
    left. cbn [bind]. apply offset_defined; [|exact Htoday].
    apply Date_UTC_defined; lia.
  - destruct (digitRun_decimal _ _ _ Hd ltac:(lia) ltac:(lia)) as (_ & Hdd & Hdb & Hdp).
    rewrite (split_none _ _ Hdd).
    cbn [List.length Nat.leb nth]. rewrite Hdp.
    change (outside None 0 12) with false. cbv iota.
    destruct (outside (Some (Num (decimal w))) 0 31) eqn:E2;
      [right; eexists; reflexivity|].
    apply outside_false in E2.
    destruct (truthy (Num (decimal w))); [|right; eexists; reflexivity].
    left. cbn [bind]. apply offset_defined; [|exact Htoday].
    apply Date_UTC_defined; lia.
Qed.

(** A captured shortcut is a word of the grammar and resolves. *)
Lemma shortcut_slot_resolves
    (s : jsstring) (arr : list value) (w : jsstring) :
  String_match s compiledExpression = Some arr ->
  nth 2 arr JUndefined = JString w ->
  exists word n,
    In (word, n) shortcutOffsets /\ w = str word /\
    resolveShortcutString w = Num n.
Proof.
  intros Hm H2.
  destruct (match_slots _ _ Hm)
    as (f1 & sc & off & iso & nl & wd & f2 & pre & memo & -> & _ & Hsc & _).
  cbn [nth] in H2. subst sc. cbn [slot_ok slotShape] in Hsc.
  unfold shortcutWords in Hsc. cbn [List.map In] in Hsc.
  repeat (destruct Hsc as [<-|Hsc];
          [eexists; eexists; split; [|split; [reflexivity|vm_compute; reflexivity]];
           simpl; tauto|]).
  contradiction.
Qed.

(** X3: every shortcut the grammar captures is one of its seven words, and
    [resolveShortcutString] resolves it to the offset of its family, never
    to [NaN]. *)
Theorem captured_shortcut_resolves
    (s : jsstring) (arr : list value) (w : jsstring) :
  String_match s compiledExpression = Some arr ->
  nth 2 arr JUndefined = JString w ->
  exists word n,
    In (word, n) shortcutOffsets /\ w = str word /\
    resolveShortcutString w = Num n.
Proof. apply shortcut_slot_resolves. Qed.

Section Dispatch.
Context {U : DayNames}.

(** X6: on the slots of a match, [extractOffset] faults when the shortcut
    slot is absent and otherwise returns the offset of the shortcut: the
    numeric, calendar and weekday slots are never consulted. *)
Theorem extractOffset_on_match
    (self : Parser) (s : jsstring) (arr : list value) :
  String_match s compiledExpression = Some arr ->
  extractOffset self (Some arr) =
  match nth 2 arr JUndefined with
  | JString w => Normal (resolveShortcutString w)
  | _ => Throw TypeError
  end.
Proof.
  intros Hm.
  pose proof (slot_defined arr 2 (String_match_defined _ _ _ Hm)) as Hn.
  destruct (nth 2 arr JUndefined) as [| |w] eqn:E.
  - exact (extractOffset_absent self arr E).
  - contradiction.
  - destruct (shortcut_slot_resolves s arr w Hm E) as (word & n & Hin & -> & _).
    apply extractOffset_shortcut; [exact E|].
    simpl in Hin.
    repeat (destruct Hin as [Hin|Hin]; [injection Hin as <- _; discriminate|]).
    contradiction.
Qed.

(** X9: [parseInput] rejects with an exception exactly when the grammar
    matches with the shortcut slot absent, and the exception is then the
    [TypeError]; the errors of [resolveISOString] never come out of
    [parseInput]. *)
Theorem parseInput_faults_iff (self : Parser) (now : Date) (v : value) (e : jserror) :
  cache_ok self ->
  (fst (parseInput self now v) = faulted e <->
   e = TypeError /\
   exists s arr, v = JString s /\
                 String_match s compiledExpression = Some arr /\
                 nth 2 arr JUndefined = JUndefined).
Proof.
  intros Hc. rewrite (parseInput_outcome _ _ _ Hc). split.
  - intros H. destruct v as [| |s]; [discriminate H | discriminate H |].
    destruct (String_match s compiledExpression) as [arr|] eqn:Hm;
      [|rewrite (parse_no_match now s Hm) in H; discriminate H].
    rewrite (parse_on_match now s arr Hm) in H. unfold assembled in H.
    pose proof (slot_defined arr 2 (String_match_defined _ _ _ Hm)) as Hn.
    destruct (nth 2 arr JUndefined) as [| |w] eqn:E.
    + injection H as <-. split; [reflexivity|].
      exists s, arr. repeat split; assumption.
    + contradiction.
    + destruct (negb (isEmpty (flagOf arr)) && isEmpty (string_of (nth 8 arr JUndefined)))%bool;
        discriminate H.
  - intros (-> & s & arr & -> & Hm & E).
    exact (parse_absent_shortcut now s arr Hm E).
Qed.

(** X10: [parseInput] signals the validation failure exactly when the
    grammar matches with a shortcut, a flag and an empty text. *)
Theorem parseInput_noText_iff (self : Parser) (now : Date) (v : value) :
  cache_ok self ->
  (fst (parseInput self now v) = noText <->
   exists s arr word,
     v = JString s /\ String_match s compiledExpression = Some arr /\
     nth 2 arr JUndefined = JString word /\
     flagOf arr <> [] /\ nth 8 arr JUndefined = JString []).
Proof.
  intros Hc. rewrite (parseInput_outcome _ _ _ Hc). split.
  - intros H. destruct v as [| |s]; [discriminate H | discriminate H |].
    destruct (String_match s compiledExpression) as [arr|] eqn:Hm;
      [|rewrite (parse_no_match now s Hm) in H; discriminate H].
    rewrite (parse_on_match now s arr Hm) in H. unfold assembled in H.
    destruct (match_slots _ _ Hm)
      as (f1 & sc & off & iso & nl & wd & f2 & pre & memo & Harr & _).
    destruct (nth 2 arr JUndefined) as [| |w] eqn:E; [discriminate H | discriminate H |].
    exists s, arr, w. split; [reflexivity|]. split; [exact Hm|].
    split; [exact E|].
    assert (E8 : nth 8 arr JUndefined = JString memo) by (rewrite Harr; reflexivity).
    rewrite E8 in H |- *. cbn [string_of] in H.
    destruct (flagOf arr) as [|c flag]; destruct memo as [|d memo];
      cbn [isEmpty negb andb] in H; try discriminate H.
    split; [discriminate | reflexivity].
  - intros (s & arr & word & -> & Hm & E2 & Hflag & E8).
    rewrite (parse_on_match now s arr Hm). unfold assembled.
    rewrite E2, E8. cbn [string_of isEmpty].
    destruct (flagOf arr); [contradiction | reflexivity].
Qed.

(** X18: a call of [parseInput] leaves the reference date of the instance
    set to the date of the call, also for [null]; the expression is built
    and cached by a call on a string and untouched by a call on [null] or
    [undefined]. *)
Theorem parseInput_leaves_instance (self : Parser) (now : Date) (v : value) :
  cache_ok self ->
  today (snd (parseInput self now v)) = now /\
  expr (snd (parseInput self now v))
    = (if isNullOrUndefined v then expr self else Some compiledExpression) /\
  cache_ok (snd (parseInput self now v)).
Proof.
  intros Hc. split; [|split].
  - rewrite (parseInput_instance _ _ _ Hc). destruct v; reflexivity.
  - rewrite (parseInput_instance _ _ _ Hc). destruct v; reflexivity.
  - exact (parseInput_cache_ok _ _ _ Hc).
Qed.

End Dispatch.

(** ** The further properties at the sample date *)

Lemma sampleLine_slots : String_match sampleLine compiledExpression = Some sampleSlots.
Proof. vm_compute. reflexivity. Qed.

Lemma sampleParser_cache_ok : cache_ok (new_Parser sampleDate).
Proof. intros re H. discriminate H. Qed.

Lemma String_match_shape_witness :
  exists f1 sc off iso nl wd f2 pre text,
    sampleSlots = [JString sampleLine; f1; sc; off; iso; nl; wd; f2; JString text] /\
    slot_ok 1 f1 /\ slot_ok 2 sc /\ slot_ok 3 off /\ slot_ok 4 iso /\
    slot_ok 5 nl /\ slot_ok 6 wd /\ slot_ok 7 f2 /\
    sampleLine = pre ++ text /\
    Forall (fun c => is_line_terminator c = false) text.
Proof. apply (String_match_shape sampleLine sampleSlots). vm_compute. reflexivity. Defined.

Lemma parseInput_single_line_not_cancelled_witness :
  exists arr,
    String_match sampleLine compiledExpression = Some arr /\
    fst (parseInput (U := fromSpec) (new_Parser sampleDate) sampleDate
           (JString sampleLine)) = assembled arr /\
    fst (parseInput (U := fromSpec) (new_Parser sampleDate) sampleDate
           (JString sampleLine)) <> cancelled.
Proof.
  apply (parseInput_single_line_not_cancelled (U := fromSpec)
           (new_Parser sampleDate) sampleDate sampleLine).
  - intros re H. discriminate H.
  - unfold single_line. repeat constructor.
Defined.

Lemma captured_shortcut_resolves_witness :
  exists word n,
    In (word, n) shortcutOffsets /\ str "today" = str word /\
    resolveShortcutString (str "today") = Num n.
Proof.
  apply (captured_shortcut_resolves sampleLine sampleSlots (str "today")).
  - vm_compute. reflexivity.
  - reflexivity.
Defined.


Lemma captured_calendar_token_resolves_witness :
  (exists n, resolveISOString (new_Parser sampleDate) (str "2024-02-20") = Normal (Num n)) \/
  (exists e, resolveISOString (new_Parser sampleDate) (str "2024-02-20") = Throw e).
Proof.
  apply (captured_calendar_token_resolves (new_Parser sampleDate)
           (str "2024-02-20 dentist") calendarSlots (str "2024-02-20")).
  - vm_compute. reflexivity.
  - reflexivity.
  - unfold saneDate. simpl. lia.
Defined.

Lemma extractOffset_on_match_witness :
  extractOffset (U := fromSpec) (new_Parser sampleDate) (Some sampleSlots) =
  match nth 2 sampleSlots JUndefined with
  | JString w => Normal (resolveShortcutString w)
  | _ => Throw TypeError
  end.
Proof.
  apply (extractOffset_on_match (U := fromSpec) (new_Parser sampleDate) sampleLine).
  vm_compute. reflexivity.
Defined.

Lemma parseInput_on_match_witness :
  fst (parseInput (U := fromSpec) (new_Parser sampleDate) sampleDate
         (JString sampleLine)) = assembled sampleSlots.
Proof.
  apply (parseInput_on_match (U := fromSpec)).
  - intros re H. discriminate H.
  - vm_compute. reflexivity.
Defined.

Lemma parseInput_cancelled_iff_witness :
  fst (parseInput (U := fromSpec) (new_Parser sampleDate) sampleDate JNull)
    = cancelled <->
  isNullOrUndefined JNull = true \/
  exists s, JNull = JString s /\ String_match s compiledExpression = None.
Proof.
  apply (parseInput_cancelled_iff (U := fromSpec)).
  intros re H. discriminate H.
Defined.

Lemma parseInput_faults_iff_witness :
  fst (parseInput (U := fromSpec) (new_Parser sampleDate) sampleDate
         (JString (str "buy milk"))) = faulted TypeError <->
  TypeError = TypeError /\
  exists s arr, JString (str "buy milk") = JString s /\
                String_match s compiledExpression = Some arr /\
                nth 2 arr JUndefined = JUndefined.
Proof.
  apply (parseInput_faults_iff (U := fromSpec)).
  intros re H. discriminate H.
Defined.

Lemma parseInput_noText_iff_witness :
  fst (parseInput (U := fromSpec) (new_Parser sampleDate) sampleDate
         (JString (str "task today"))) = noText <->
  exists s arr word,
    JString (str "task today") = JString s /\
    String_match s compiledExpression = Some arr /\
    nth 2 arr JUndefined = JString word /\
    flagOf arr <> [] /\ nth 8 arr JUndefined = JString [].
Proof.
  apply (parseInput_noText_iff (U := fromSpec)).
  intros re H. discriminate H.
Defined.

Lemma parseInput_outcomes_witness :
  let o := fst (parseInput (U := fromSpec) (new_Parser sampleDate) sampleDate
                  (JString sampleLine)) in
  o = cancelled \/ o = noText \/ o = faulted TypeError \/
  exists i, o = Some (Resolved i).
Proof.
  apply (parseInput_outcomes (U := fromSpec)).
  intros re H. discriminate H.
Defined.

Lemma parseInput_resolved_witness :
  exists s pre memo,
    JString sampleLine = JString s /\ s = pre ++ memo /\
    text sampleInput = JString memo /\
    single_line memo /\
    scope sampleInput = str "default" /\
    In (flags sampleInput) (List.map str [""; "task"; "todo"; "memo"]%string) /\
    (offset sampleInput = Num 0 \/ offset sampleInput = Num 1 \/
     offset sampleInput = Num (-1)) /\
    (flags sampleInput <> [] -> memo <> []) /\
    (6 < Z.of_nat (List.length memo) -> flags sampleInput <> []).
Proof.
  apply (parseInput_resolved (U := fromSpec) (new_Parser sampleDate) sampleDate).
  - intros re H. discriminate H.
  - vm_compute. reflexivity.
Defined.

Lemma parseInput_ignores_reference_date_witness :
  fst (parseInput (U := fromSpec) (new_Parser sampleDate) sampleDate
         (JString sampleLine))
  = fst (parseInput (U := {| getDayOfWeekForString := fun _ => NaN |})
           (new_Parser sampleDate) (mkDate 1999 11 31 5) (JString sampleLine)).
Proof.
  apply parseInput_ignores_reference_date.
  - intros re H. discriminate H.
  - intros re H. discriminate H.
Defined.


Lemma resolveISOString_same_month_witness :
  resolveISOString (new_Parser sampleDate) (str "2024-02-20")
  = Normal (Num (20 - getDate (today (new_Parser sampleDate)))).
Proof.
  apply (resolveISOString_same_month (new_Parser sampleDate) (str "2024-02-20")
           (Some (Num 2024)) (Some (Num 1)) 20).
  - unfold saneDate. simpl. lia.
  - reflexivity.
  - intros y H. injection H as <-. reflexivity.
  - intros m H. injection H as <-. reflexivity.
  - lia.
Defined.

Lemma resolveISOString_reference_year_witness :
  resolveISOString (new_Parser sampleDate) (str "2024" ++ chr "-" :: str "03-01")
  = resolveISOString (new_Parser sampleDate) (str "03-01").
Proof.
  apply (resolveISOString_reference_year (new_Parser sampleDate)).
  - simpl. intros [H|[H|[H|[H|H]]]]; try discriminate H. exact H.
  - reflexivity.
  - reflexivity.
Defined.

Lemma getExpression_caches_witness :
  let w := {| this := new_Parser sampleDate; settled := None |} in
  exists w',
    getExpression w = (Normal compiledExpression, w') /\
    settled w' = settled w /\
    today (this w') = today (this w) /\
    expr (this w') = Some compiledExpression /\
    getExpression w' = (Normal compiledExpression, w').
Proof.
  apply getExpression_caches. intros re H. discriminate H.
Defined.

Lemma parseInput_leaves_instance_witness :
  let after := snd (parseInput (U := fromSpec) (new_Parser sampleDate)
                      (mkDate 2024 1 15 4) (JString sampleLine)) in
  today after = mkDate 2024 1 15 4 /\
  expr after = (if isNullOrUndefined (JString sampleLine) then expr (new_Parser sampleDate)
                else Some compiledExpression) /\
  cache_ok after.
Proof.
  apply (parseInput_leaves_instance (U := fromSpec)).
  intros re H. discriminate H.
Defined.
